(** * Film-flair: the review-driven rating aggregate

    A shallow embedding of the database schema of
    [supabase/migrations/20250831110118_*.sql] (tables, constraints,
    row-level security policies, the [update_movie_rating] trigger) and of
    the three client handlers that write to it ([ReviewForm.handleSubmit],
    [MyReviews.handleDeleteReview], [MovieDetail.handleWatchlistToggle]).

    Tables are lists of rows in storage order.  A statement is a function
    from the database to a [result]; [transact] is the transaction around
    it, which keeps the old database when the statement raises. *)

From Stdlib Require Import String ZArith List Bool Lia Permutation.
From Stdlib Require Import Sorted QArith Qround Lqa.
Import ListNotations.
Open Scope Z_scope.

(** ** Errors *)

(** The SQLSTATE classes the schema can raise.  In the vocabulary of the
    specification [unique_violation] is DuplicateEntry and
    [insufficient_privilege] (a row-level security WITH CHECK failure,
    42501) is Forbidden.  A rating is refused, the InvalidInput of the
    specification, with [invalid_text_representation] (22P02) when it is not
    written as a whole number, with [numeric_value_out_of_range] (22003)
    when it does not fit an INTEGER, and with [check_violation] (23514) when
    the CHECK constraint fails. *)
Inductive sqlstate : Set :=
| unique_violation
| check_violation
| foreign_key_violation
| insufficient_privilege
| numeric_value_out_of_range
| invalid_text_representation.

Inductive result (A : Type) : Type :=
| Ok (a : A)
| Err (e : sqlstate).
Arguments Ok {A} a.
Arguments Err {A} e.

Definition bind {A B} (r : result A) (k : A -> result B) : result B :=
  match r with
  | Ok a => k a
  | Err e => Err e
  end.

Notation "x <- c ;; k" := (bind c (fun x => k))
  (at level 61, c at next level, right associativity).

(** [guard b e] raises [e] unless [b] holds. *)
Definition guard (b : bool) (e : sqlstate) : result unit :=
  if b then Ok tt else Err e.

Notation "'check' b 'else' e ;; k" := (bind (guard b e) (fun _ => k))
  (at level 61, b at next level, e at next level, right associativity).

(** ** Numeric columns *)

(** A [numeric] value with [s] fractional digits is kept as the integer
    [v] with value [v / 10^s]; [average_rating DECIMAL(3,2)] is therefore an
    integer number of hundredths. *)

(** Division rounded half away from zero, as numeric division and numeric
    rounding do ([b] positive). *)
Definition div_round (a b : Z) : Z :=
  if a <? 0 then - ((2 * (- a) + b) / (2 * b)) else (2 * a + b) / (2 * b).

Definition sum (xs : list Z) : Z := fold_right Z.add 0 xs.

(** The result scale of [AVG] over numerics: numeric division keeps at least
    sixteen significant digits, that is at least sixteen fractional digits
    for a mean between 1 and 5.  The value that reaches the column is the
    same at every scale from 3 on ([stored_mean_any_scale] below). *)
Definition avg_rscale : Z := 16.

(** [AVG(rating::DECIMAL)] at result scale [s]: NULL over no rows. *)
Definition AVG (s : Z) (xs : list Z) : option Z :=
  match xs with
  | [] => None
  | _ => Some (div_round (sum xs * 10 ^ s) (Z.of_nat (length xs)))
  end.

Definition COALESCE {A} (o : option A) (d : A) : A :=
  match o with
  | Some a => a
  | None => d
  end.

Definition COUNT {A} (xs : list A) : Z := Z.of_nat (length xs).

(** Assignment of a scale-[s] numeric to a [DECIMAL(3,2)] column: rounded to
    two fractional digits, and a value of 10 or more does not fit. *)
Definition to_decimal_3_2 (s : Z) (v : Z) : result Z :=
  let h := div_round v (10 ^ (s - 2)) in
  if Z.abs h <? 1000 then Ok h else Err numeric_value_out_of_range.

(** Assignment of the [bigint] count to an [INTEGER] column. *)
Definition to_integer (n : Z) : result Z :=
  if (- 2 ^ 31 <=? n) && (n <=? 2 ^ 31 - 1) then Ok n
  else Err numeric_value_out_of_range.

(** A number as the body of a request gives it, by the form of its literal:
    digits with an optional minus sign, or a literal with a fraction or an
    exponent part (4.5, 4.0, 1e3), kept with its value.  The whole numbers
    the pages send (a count of stars) are of the first form. *)
Inductive json_number : Set :=
| integer_literal (z : Z)
| decimal_literal (value : Q).

Coercion integer_literal : Z >-> json_number.

(** [rating INTEGER]: the literal goes through the input function of the
    column type, which takes digits only and raises on a number that does
    not fit. *)
Definition int4in (n : json_number) : result Z :=
  match n with
  | integer_literal z => to_integer z
  | decimal_literal _ => Err invalid_text_representation
  end.

(** ** Rows *)

Definition uuid := Z.
Definition timestamptz := Z.

(** [public.movies]; of the descriptive columns only [title] is kept. *)
Module Movie.
Record t : Set := mk {
  id : uuid;
  title : string;
  average_rating : Z;   (* DECIMAL(3,2), in hundredths *)
  total_reviews : Z;
  updated_at : timestamptz
}.
End Movie.

(** [public.reviews]. *)
Module Review.
Record t : Set := mk {
  id : uuid;
  user_id : uuid;
  movie_id : uuid;
  rating : Z;
  review_text : option string;
  created_at : timestamptz;
  updated_at : timestamptz
}.
End Review.

(** [public.watchlist]. *)
Module Watch.
Record t : Set := mk {
  id : uuid;
  user_id : uuid;
  movie_id : uuid;
  added_at : timestamptz
}.
End Watch.

(** The database: [auth.users] (its ids only) and the three tables. *)
Record db : Set := mkdb {
  users : list uuid;
  movies : list Movie.t;
  reviews : list Review.t;
  watchlist : list Watch.t
}.

Definition set_movies (ms : list Movie.t) (d : db) : db :=
  mkdb (users d) ms (reviews d) (watchlist d).

Definition set_reviews (rs : list Review.t) (d : db) : db :=
  mkdb (users d) (movies d) rs (watchlist d).

Definition set_watchlist (ws : list Watch.t) (d : db) : db :=
  mkdb (users d) (movies d) (reviews d) ws.

(** ** Sessions and row-level security *)

(** A session: the value of [auth.uid()] (NULL when nobody is signed in),
    whether its role is exempt from row-level security, and the transaction
    time [now()].  The table owner and roles with BYPASSRLS are exempt.  The
    roles a browser client connects with are not: the policies on [reviews]
    and [watchlist] below, which compare [auth.uid()] with the owner of a
    row, are written for them. *)
Record session : Set := mksession {
  auth_uid : option uuid;
  bypassrls : bool;
  now : timestamptz
}.

(** [auth.uid() = u]; a NULL [auth.uid()] makes the comparison fail. *)
Definition auth_uid_is (ses : session) (u : uuid) : bool :=
  match auth_uid ses with
  | Some a => a =? u
  | None => false
  end.

(** All four tables have row-level security enabled (lines 65-68).  Each
    predicate below is the policy of one command on one table, for a role
    that is subject to them. *)
Module Policy.
(** "Users can create their own reviews", WITH CHECK. *)
Definition reviews_insert (ses : session) (r : Review.t) : bool :=
  bypassrls ses || auth_uid_is ses (Review.user_id r).

(** "Users can update their own reviews", USING; with no WITH CHECK of
    its own the same expression is also checked on the new row. *)
Definition reviews_update (ses : session) (r : Review.t) : bool :=
  bypassrls ses || auth_uid_is ses (Review.user_id r).

(** "Users can delete their own reviews", USING. *)
Definition reviews_delete (ses : session) (r : Review.t) : bool :=
  bypassrls ses || auth_uid_is ses (Review.user_id r).

(** [public.movies] has one policy, "Movies are viewable by everyone",
    FOR SELECT (line 75).  No policy applies to UPDATE, and a command
    without an applicable policy is denied by default: for a role subject
    to row-level security no row of [movies] is updatable. *)
Definition movies_update (ses : session) (m : Movie.t) : bool :=
  bypassrls ses.

(** "Users can add to their own watchlist", WITH CHECK. *)
Definition watchlist_insert (ses : session) (w : Watch.t) : bool :=
  bypassrls ses || auth_uid_is ses (Watch.user_id w).

(** "Users can remove from their own watchlist", USING (the SELECT
    policy "Users can view their own watchlist" has the same
    expression). *)
Definition watchlist_delete (ses : session) (w : Watch.t) : bool :=
  bypassrls ses || auth_uid_is ses (Watch.user_id w).
End Policy.

(** ** The rating trigger *)

(** [update_updated_at_column] as bound by [update_movies_updated_at],
    BEFORE UPDATE ON [movies]: [NEW.updated_at = now()]. *)
Definition update_movies_updated_at (ses : session) (NEW : Movie.t) : Movie.t :=
  Movie.mk (Movie.id NEW) (Movie.title NEW) (Movie.average_rating NEW)
           (Movie.total_reviews NEW) (now ses).

(** [COALESCE(NEW.movie_id, OLD.movie_id)]: [NEW] is NULL in a DELETE
    trigger, [OLD] in an INSERT trigger; [movie_id] itself is NOT NULL. *)
Definition target_movie_id (NEW OLD : option Review.t) : option uuid :=
  match NEW with
  | Some n => Some (Review.movie_id n)
  | None => option_map Review.movie_id OLD
  end.

(** The rows [SELECT ... FROM public.reviews WHERE movie_id = target] sees
    ("Reviews are viewable by everyone"). *)
Definition reviews_of (target : uuid) (d : db) : list Review.t :=
  filter (fun r => Review.movie_id r =? target) (reviews d).

(** [public.update_movie_rating()], lines 160-174.  The function is
    declared [LANGUAGE plpgsql] without SECURITY DEFINER ([handle_new_user],
    line 222, has it), so its UPDATE runs as the role of the statement that
    fired the trigger, and [Policy.movies_update] selects the rows it may
    write.  The two sub-selects are evaluated only when a row is written;
    the BEFORE UPDATE trigger of [movies] stamps each written row. *)
Definition update_movie_rating (ses : session) (NEW OLD : option Review.t)
    (d : db) : result db :=
  match target_movie_id NEW OLD with
  | None => Ok d
  | Some target =>
      let hit (m : Movie.t) :=
        (Movie.id m =? target) && Policy.movies_update ses m in
      if existsb hit (movies d) then
        let rs := reviews_of target d in
        avg <- to_decimal_3_2 avg_rscale
                 (COALESCE (AVG avg_rscale (map Review.rating rs)) 0) ;;
        cnt <- to_integer (COUNT rs) ;;
        Ok (set_movies
              (map (fun m =>
                      if hit m then
                        update_movies_updated_at ses
                          (Movie.mk (Movie.id m) (Movie.title m) avg cnt
                                    (Movie.updated_at m))
                      else m)
                   (movies d))
              d)
      else Ok d
  end.

(** ** Statements on [public.reviews] *)

(** [CHECK (rating >= 1 AND rating <= 5)]. *)
Definition rating_check (r : Review.t) : bool :=
  (1 <=? Review.rating r) && (Review.rating r <=? 5).

(** Two rows collide on [UNIQUE(user_id, movie_id)]. *)
Definition same_pair (a b : Review.t) : bool :=
  (Review.user_id a =? Review.user_id b) &&
  (Review.movie_id a =? Review.movie_id b).

Definition has_user (u : uuid) (d : db) : bool :=
  existsb (fun x => x =? u) (users d).

Definition has_movie (m : uuid) (d : db) : bool :=
  existsb (fun x => Movie.id x =? m) (movies d).

(** The first row satisfying [p], with the rows before and after it. *)
Fixpoint pick {A} (p : A -> bool) (l : list A) : option (list A * A * list A) :=
  match l with
  | [] => None
  | x :: l' =>
      if p x then Some ([], x, l')
      else match pick p l' with
           | Some (pre, y, post) => Some (x :: pre, y, post)
           | None => None
           end
  end.

(** The SET clause of an UPDATE of [reviews]: the columns it assigns, any
    of the seven, [rating] as the request gives it. *)
Record review_set : Set := mkset {
  set_id : option uuid;
  set_user_id : option uuid;
  set_movie_id : option uuid;
  set_rating : option json_number;
  set_review_text : option (option string);
  set_created_at : option timestamptz;
  set_updated_at : option timestamptz
}.

(** The new version of [old]: the assigned [rating] is converted to the
    type of its column, the columns that are not assigned keep their
    values. *)
Definition apply_set (s : review_set) (old : Review.t) : result Review.t :=
  rating <- match set_rating s with
            | Some n => int4in n
            | None => Ok (Review.rating old)
            end ;;
  Ok (Review.mk (COALESCE (set_id s) (Review.id old))
                (COALESCE (set_user_id s) (Review.user_id old))
                (COALESCE (set_movie_id s) (Review.movie_id old))
                rating
                (COALESCE (set_review_text s) (Review.review_text old))
                (COALESCE (set_created_at s) (Review.created_at old))
                (COALESCE (set_updated_at s) (Review.updated_at old))).

(** [update_updated_at_column] as bound by [update_reviews_updated_at],
    BEFORE UPDATE ON [reviews]. *)
Definition update_reviews_updated_at (ses : session) (NEW : Review.t) : Review.t :=
  Review.mk (Review.id NEW) (Review.user_id NEW) (Review.movie_id NEW)
            (Review.rating NEW) (Review.review_text NEW)
            (Review.created_at NEW) (now ses).

(** A row trigger function of [reviews]: called with [NEW] and [OLD] on the
    database as the statement has left it. *)
Definition trigger : Type :=
  session -> option Review.t -> option Review.t -> db -> result db.

(** What an INSERT of [new] into [reviews] checks, in order: the INSERT
    policy, the CHECK constraint, the primary key and the unique index, and
    at the end of the statement the two foreign keys.  [new] is a row of
    the table's type: its [rating] has been through [int4in]. *)
Definition insert_checks (ses : session) (new : Review.t) (d : db)
    : result unit :=
  check (Policy.reviews_insert ses new) else insufficient_privilege ;;
  check (rating_check new) else check_violation ;;
  check (negb (existsb (fun r => Review.id r =? Review.id new) (reviews d)))
    else unique_violation ;;
  check (negb (existsb (same_pair new) (reviews d))) else unique_violation ;;
  check (has_user (Review.user_id new) d) else foreign_key_violation ;;
  check (has_movie (Review.movie_id new) d) else foreign_key_violation ;;
  Ok tt.

(** What an UPDATE of [old] to [new] checks, [others] being the remaining
    rows: the UPDATE policy on the new row, the CHECK constraint, the
    primary key and the unique index, and each foreign key whose column
    changed.  [new] is a row of the table's type, as [apply_set] gives
    it. *)
Definition update_checks (ses : session) (old new : Review.t)
    (others : list Review.t) (d : db) : result unit :=
  check (Policy.reviews_update ses new) else insufficient_privilege ;;
  check (rating_check new) else check_violation ;;
  check (negb (existsb (fun r => Review.id r =? Review.id new) others))
    else unique_violation ;;
  check (negb (existsb (same_pair new) others)) else unique_violation ;;
  check ((Review.user_id new =? Review.user_id old)
         || has_user (Review.user_id new) d)
    else foreign_key_violation ;;
  check ((Review.movie_id new =? Review.movie_id old)
         || has_movie (Review.movie_id new) d)
    else foreign_key_violation ;;
  Ok tt.

(** The row [UPDATE reviews ... WHERE id = rid] works on: the row with that
    id, if the UPDATE policy lets the session see it. *)
Definition row_to_update (ses : session) (rid : uuid) (rs : list Review.t)
    : option (list Review.t * Review.t * list Review.t) :=
  pick (fun r => (Review.id r =? rid) && Policy.reviews_update ses r) rs.

Section Statements.

(** The function bound AFTER INSERT / UPDATE / DELETE ... FOR EACH ROW. *)
Variable after_row : trigger.

(** [INSERT INTO reviews (user_id, movie_id, rating, review_text)]; [id]
    is the value [gen_random_uuid()] draws.  The rating is converted to the
    type of its column, the row is written when the checks pass, and the
    row trigger then runs on the written table. *)
Definition insert_into_reviews (ses : session) (id user_id movie_id : uuid)
    (rating : json_number) (review_text : option string) (d : db)
    : result db :=
  rating <- int4in rating ;;
  let new :=
    Review.mk id user_id movie_id rating review_text (now ses) (now ses) in
  _ <- insert_checks ses new d ;;
  after_row ses (Some new) None (set_reviews (reviews d ++ [new]) d).

(** [UPDATE reviews SET ... WHERE id = rid]: the row is the one the
    UPDATE policy lets the session see; the result carries the number of
    rows affected.  The new version of the row is written after the rows
    of the table, where a scan then finds it; the old version is gone. *)
Definition update_reviews (ses : session) (s : review_set) (rid : uuid)
    (d : db) : result (db * nat) :=
  match row_to_update ses rid (reviews d) with
  | None => Ok (d, 0%nat)
  | Some (pre, old, post) =>
      assigned <- apply_set s old ;;
      let new := update_reviews_updated_at ses assigned in
      _ <- update_checks ses old new (pre ++ post) d ;;
      d' <- after_row ses (Some new) (Some old)
              (set_reviews (pre ++ post ++ [new]) d) ;;
      Ok (d', 1%nat)
  end.

(** The DELETE row trigger, once per deleted row. *)
Fixpoint after_delete_rows (ses : session) (olds : list Review.t) (d : db)
    : result db :=
  match olds with
  | [] => Ok d
  | old :: olds' =>
      d' <- after_row ses None (Some old) d ;;
      after_delete_rows ses olds' d'
  end.

(** [DELETE FROM reviews WHERE where_]: the rows that satisfy the WHERE
    clause and the DELETE policy go; the others are not seen. *)
Definition delete_from_reviews (ses : session) (where_ : Review.t -> bool)
    (d : db) : result (db * nat) :=
  let hit r := where_ r && Policy.reviews_delete ses r in
  let olds := filter hit (reviews d) in
  d' <- after_delete_rows ses olds
          (set_reviews (filter (fun r => negb (hit r)) (reviews d)) d) ;;
  Ok (d', length olds).

End Statements.

(** The statements with the triggers of lines 176-186 bound:
    [update_movie_rating_on_insert], [update_movie_rating_on_update] and
    [update_movie_rating_on_delete] all execute [update_movie_rating]. *)
Definition insert_review := insert_into_reviews update_movie_rating.
Definition update_review := update_reviews update_movie_rating.
Definition delete_reviews := delete_from_reviews update_movie_rating.

(** ** Statements on [public.watchlist] (no trigger is defined on it) *)

Definition same_entry (a b : Watch.t) : bool :=
  (Watch.user_id a =? Watch.user_id b) &&
  (Watch.movie_id a =? Watch.movie_id b).

Definition insert_into_watchlist (ses : session) (id user_id movie_id : uuid)
    (d : db) : result db :=
  let new := Watch.mk id user_id movie_id (now ses) in
  check (Policy.watchlist_insert ses new) else insufficient_privilege ;;
  check (negb (existsb (fun w => Watch.id w =? id) (watchlist d)))
             else unique_violation ;;
  check (negb (existsb (same_entry new) (watchlist d))) else unique_violation ;;
  check (has_user user_id d) else foreign_key_violation ;;
  check (has_movie movie_id d) else foreign_key_violation ;;
  Ok (set_watchlist (watchlist d ++ [new]) d).

Definition delete_from_watchlist (ses : session) (where_ : Watch.t -> bool)
    (d : db) : result (db * nat) :=
  let hit w := where_ w && Policy.watchlist_delete ses w in
  Ok (set_watchlist (filter (fun w => negb (hit w)) (watchlist d)) d,
      length (filter hit (watchlist d))).

(** ** Transactions *)

(** Every request of the client is one transaction: a statement that
    raises leaves the database as it was. *)
Definition transact {A} (stmt : db -> result (db * A)) (d : db)
    : db * result A :=
  match stmt d with
  | Ok (d', a) => (d', Ok a)
  | Err e => (d, Err e)
  end.

Definition returning_unit (stmt : db -> result db) (d : db) : result (db * unit) :=
  d' <- stmt d ;; Ok (d', tt).

(** ** Requests *)

(** A request to the database: one statement, run in its own transaction
    on the session of its sender. *)
Inductive statement : Type :=
| INSERT_reviews (id user_id movie_id : uuid) (rating : json_number)
                 (review_text : option string)
| UPDATE_reviews (s : review_set) (rid : uuid)
| DELETE_reviews (where_ : Review.t -> bool)
| INSERT_watchlist (id user_id movie_id : uuid)
| DELETE_watchlist (where_ : Watch.t -> bool).

Definition request (ses : session) (st : statement) (d : db) : db :=
  match st with
  | INSERT_reviews id u m r txt =>
      fst (transact (returning_unit (insert_review ses id u m r txt)) d)
  | UPDATE_reviews s rid => fst (transact (update_review ses s rid) d)
  | DELETE_reviews where_ => fst (transact (delete_reviews ses where_) d)
  | INSERT_watchlist id u m =>
      fst (transact (returning_unit (insert_into_watchlist ses id u m)) d)
  | DELETE_watchlist where_ =>
      fst (transact (delete_from_watchlist ses where_) d)
  end.

(** A history of requests, oldest first. *)
Fixpoint requests (h : list (session * statement)) (d : db) : db :=
  match h with
  | [] => d
  | (ses, st) :: h' => requests h' (request ses st d)
  end.

(** ** The client handlers *)

(** What a handler shows: nothing, its success toast, the "Error" toast
    (with the error it logged), or "Sign in required". *)
Inductive feedback : Set :=
| nothing
| toast_success
| toast_error (logged : sqlstate)
| toast_sign_in_required.

(** [ReviewForm.handleSubmit], lines 23-56.  [ses] is the connection of the
    imported [supabase] client, [auth_uid ses] the [user] of [useAuth];
    [review_text] is the value of [reviewText.trim() || null].  [rating] is
    the state the stars of the form set, a whole number, 0 for none. *)
Definition handleSubmit (ses : session) (movieId : uuid) (rating : Z)
    (review_text : option string) (new_id : uuid) (d : db) : db * feedback :=
  match auth_uid ses with
  | None => (d, nothing)
  | Some user =>
      if rating =? 0 then (d, nothing)
      else
        match transact (returning_unit
                (insert_review ses new_id user movieId rating review_text)) d
        with
        | (d', Ok _) => (d', toast_success)
        | (d', Err error) => (d', toast_error error)
        end
  end.

(** [MyReviews.handleDeleteReview], lines 130-155.  The awaited result is
    dropped, so the error field of the response is never looked at and the
    success toast follows every request. *)
Definition handleDeleteReview (ses : session) (reviewId : uuid)
    (confirmed : bool) (d : db) : db * feedback :=
  match auth_uid ses with
  | None => (d, nothing)
  | Some user =>
      if negb confirmed then (d, nothing)
      else
        let where_ r := (Review.id r =? reviewId) && (Review.user_id r =? user) in
        (fst (transact (delete_reviews ses where_) d), toast_success)
  end.

(** [MovieDetail.handleWatchlistToggle] (Home.tsx lines 520-562), with the
    [isInWatchlist] state it reads and sets.  Here too the response of
    either request is dropped. *)
Definition handleWatchlistToggle (ses : session) (id : option uuid)
    (isInWatchlist : bool) (new_id : uuid) (d : db) : db * bool * feedback :=
  match auth_uid ses, id with
  | Some user, Some id =>
      if isInWatchlist then
        let where_ w := (Watch.user_id w =? user) && (Watch.movie_id w =? id) in
        (fst (transact (delete_from_watchlist ses where_) d), false,
         toast_success)
      else
        (fst (transact (returning_unit
                (insert_into_watchlist ses new_id user id)) d), true,
         toast_success)
  | _, _ => (d, isInWatchlist, toast_sign_in_required)
  end.

(** ** Reading the aggregate *)

Definition movie_row (m : uuid) (d : db) : option Movie.t :=
  find (fun x => Movie.id x =? m) (movies d).

(** [(average_rating, total_reviews)] of movie [m], the first in
    hundredths. *)
Definition aggregate (m : uuid) (d : db) : option (Z * Z) :=
  option_map (fun x => (Movie.average_rating x, Movie.total_reviews x))
             (movie_row m d).

(** The mean of [xs] rounded to two decimals, in hundredths, and 0 over no
    rows: the value the specification gives [average_rating]. *)
Definition rounded_mean (xs : list Z) : Z :=
  match xs with
  | [] => 0
  | _ => div_round (100 * sum xs) (COUNT xs)
  end.

(** [UNIQUE(user_id, movie_id)] and the primary key, as properties of a
    table. *)
Definition review_pair (r : Review.t) : uuid * uuid :=
  (Review.user_id r, Review.movie_id r).

Definition watch_pair (w : Watch.t) : uuid * uuid :=
  (Watch.user_id w, Watch.movie_id w).

Definition unique_pairs (rs : list Review.t) : Prop :=
  NoDup (map review_pair rs).

Definition unique_ids (rs : list Review.t) : Prop :=
  NoDup (map Review.id rs).

Definition unique_entries (ws : list Watch.t) : Prop :=
  NoDup (map watch_pair ws).

(** The rows of user [u] for movie [m]. *)
Definition reviews_by (u m : uuid) (rs : list Review.t) : list Review.t :=
  filter (fun r => (Review.user_id r =? u) && (Review.movie_id r =? m)) rs.

Definition entries_by (u m : uuid) (ws : list Watch.t) : list Watch.t :=
  filter (fun w => (Watch.user_id w =? u) && (Watch.movie_id w =? m)) ws.

(** ** Scenarios *)

(** Two movies without reviews, two users, and Scenario A of the
    specification run through the statements above.  [as_] makes the
    session of a user: [client] is a signed-in user of the application, whose
    API role is subject to row-level security; [exempt] is the same user on
    a role that is not. *)
Module Scenario.
Definition X : uuid := 100.
Definition Y : uuid := 200.
Definition U1 : uuid := 1.
Definition U2 : uuid := 2.
Definition R1 : uuid := 11.
Definition R2 : uuid := 12.

Definition start : db :=
  mkdb [U1; U2] [Movie.mk X "X" 0 0 0; Movie.mk Y "Y" 0 0 0] [] [].

Definition client (u : uuid) (t : timestamptz) : session :=
  mksession (Some u) false t.

Definition exempt (u : uuid) (t : timestamptz) : session :=
  mksession (Some u) true t.

(** The aggregate of [X] next to the number of reviews of [X]. *)
Definition observe (d : db) : option (Z * Z) * Z :=
  (aggregate X d, COUNT (reviews_of X d)).

Definition set_rating_to (r : json_number) : review_set :=
  mkset None None None (Some r) None None None.

Definition move_to (m : uuid) : review_set :=
  mkset None None (Some m) None None None None.

Definition by_id (rid : uuid) (r : Review.t) : bool := Review.id r =? rid.

(** U1 rates 4, U2 rates 5, U1 changes to 2, U2 deletes, U1 deletes. *)
Definition A (as_ : uuid -> timestamptz -> session)
    : list (option (Z * Z) * Z) :=
  let d1 := fst (handleSubmit (as_ U1 1) X 4 None R1 start) in
  let d2 := fst (handleSubmit (as_ U2 2) X 5 None R2 d1) in
  let d3 := fst (transact (update_review (as_ U1 3) (set_rating_to 2) R1) d2) in
  let d4 := fst (handleDeleteReview (as_ U2 4) R2 true d3) in
  let d5 := fst (handleDeleteReview (as_ U1 5) R1 true d4) in
  map observe [d1; d2; d3; d4; d5].

(** [X] with one review, by U1 with rating 4, and its aggregate in
    step: the state after U1's insert on an exempt role. *)
Definition one_review : db :=
  mkdb [U1; U2]
       [Movie.mk X "X" 400 1 1; Movie.mk Y "Y" 0 0 0]
       [Review.mk R1 U1 X 4 None 1 1] [].



(** U1 has [X] on their watchlist. *)
Definition watching : db :=
  mkdb [U1; U2]
       [Movie.mk X "X" 400 1 1; Movie.mk Y "Y" 0 0 0]
       [Review.mk R1 U1 X 4 None 1 1]
       [Watch.mk 21 U1 X 1].

(** U2, signed in to the application, goes after what belongs to U1: an
    update and a delete of U1's review, a review and a watchlist entry in
    U1's name, the removal of U1's watchlist entry. *)
Definition meddling : list (session * statement) :=
  [(client U2 2, UPDATE_reviews (set_rating_to 1) R1);
   (client U2 3, DELETE_reviews (by_id R1));
   (client U2 4, INSERT_reviews R2 U1 Y 1 None);
   (client U2 5, INSERT_watchlist 22 U1 Y);
   (client U2 6, DELETE_watchlist (fun w => Watch.user_id w =? U1));
   (client U2 7, INSERT_reviews R2 U2 X 2 None)].

(** Scenario A as a history of requests on exempt roles, with a third
    reviewer so that the mean needs rounding: ratings 4, 5, 4 and then
    2, 5, 4. *)
Definition three_reviewers : list (session * statement) :=
  [(exempt U1 1, INSERT_reviews R1 U1 X 4 None);
   (exempt U2 2, INSERT_reviews R2 U2 X 5 None);
   (exempt 3 3, INSERT_reviews 13 3 X 4 None);
   (exempt U1 4, UPDATE_reviews (set_rating_to 2) R1)].

Definition three_users : db :=
  mkdb [U1; U2; 3] [Movie.mk X "X" 0 0 0; Movie.mk Y "Y" 0 0 0] [] [].

(** Both users have [X] on their watchlists, U1 has [Y] as well. *)
Definition two_watchers : db :=
  mkdb [U1; U2]
       [Movie.mk X "X" 0 0 0; Movie.mk Y "Y" 0 0 0] []
       [Watch.mk 21 U1 X 1; Watch.mk 22 U2 X 2; Watch.mk 23 U1 Y 3].

(** U1 submits two reviews of [X]; U1 adds [X], which they have, and [Y]. *)
Definition two_submissions : list (session * statement) :=
  [(exempt U1 1, INSERT_reviews R1 U1 X 4 None);
   (exempt U1 2, INSERT_reviews R2 U1 X 5 None)].

Definition two_additions : list (session * statement) :=
  [(client U1 2, INSERT_watchlist 22 U1 X);
   (client U1 3, INSERT_watchlist 23 U1 Y)].

(** Requests that reach the primary key and the CHECK constraint: two
    inserts that are accepted, an insert and an update that take an id in
    use, an update to a rating of 9, and an update that assigns a free id
    and the rating 1, which is accepted. *)
Definition renumbering : list (session * statement) :=
  [(client U1 1, INSERT_reviews R1 U1 X 4 None);
   (client U2 2, INSERT_reviews R2 U2 X 5 None);
   (client U2 3, INSERT_reviews R1 U2 Y 3 None);
   (client U1 4,
    UPDATE_reviews (mkset (Some R2) None None None None None None) R1);
   (client U1 5,
    UPDATE_reviews
      (mkset (Some 13) None None (Some (integer_literal 9)) None None None)
      R1);
   (client U1 6,
    UPDATE_reviews
      (mkset (Some 13) None None (Some (integer_literal 1)) None None None)
      R1)].

End Scenario.

(** ** Consistency *)

(** A row of [movies] agrees with the reviews of its movie; every row
    does; every rating is within the CHECK constraint. *)
Definition row_consistent (rs : list Review.t) (m : Movie.t) : Prop :=
  let mine := filter (fun r => Review.movie_id r =? Movie.id m) rs in
  Movie.total_reviews m = COUNT mine /\
  Movie.average_rating m = rounded_mean (map Review.rating mine).

Definition consistent (d : db) : Prop :=
  Forall (row_consistent (reviews d)) (movies d).

Definition ratings_checked (rs : list Review.t) : Prop :=
  Forall (fun r => rating_check r = true) rs.

(** ** More of the schema: invariants of a database *)


(** Histories sent on roles subject to row-level security; histories sent
    on exempt roles that never assign [movie_id]. *)
Definition sent_by_clients (h : list (session * statement)) : Prop :=
  Forall (fun q => bypassrls (fst q) = false) h.

Definition keeps_movie_id (st : statement) : Prop :=
  match st with
  | UPDATE_reviews s _ => set_movie_id s = None
  | _ => True
  end.

Definition sent_by_exempt_roles (h : list (session * statement)) : Prop :=
  Forall (fun q => bypassrls (fst q) = true /\ keeps_movie_id (snd q)) h.

(** The rows of [reviews] and of [watchlist] that do not belong to [u]. *)
Definition reviews_of_others (u : uuid) (d : db) : list Review.t :=
  filter (fun r => negb (Review.user_id r =? u)) (reviews d).

Definition entries_of_others (u : uuid) (d : db) : list Watch.t :=
  filter (fun w => negb (Watch.user_id w =? u)) (watchlist d).

(** ** More of the client: reading the watchlist *)

(** "Users can view their own watchlist", FOR SELECT USING
    [(auth.uid() = user_id)] (line 139). *)
Definition watchlist_select_policy (ses : session) (w : Watch.t) : bool :=
  bypassrls ses || auth_uid_is ses (Watch.user_id w).

(** [SELECT ... FROM watchlist WHERE where_], rows in storage order. *)
Definition select_from_watchlist (ses : session) (where_ : Watch.t -> bool)
    (d : db) : list Watch.t :=
  filter (fun w => where_ w && watchlist_select_policy ses w) (watchlist d).

(** The Home page, Home.tsx lines 27-137 (the Movies page has the same two
    functions).  [local] is its [watchlist] state, the movie ids it believes
    to be on the user's watchlist. *)
Module Home.
(** [fetchWatchlist], lines 80-93: nothing is set when nobody is signed
    in. *)
Definition fetchWatchlist (ses : session) (local : list uuid) (d : db)
    : list uuid :=
  match auth_uid ses with
  | None => local
  | Some user =>
      map Watch.movie_id
          (select_from_watchlist ses (fun w => Watch.user_id w =? user) d)
  end.

(** [handleWatchlistToggle], lines 95-137: the branch is chosen by the local
    state; the response of either request is dropped. *)
Definition handleWatchlistToggle (ses : session) (movieId : uuid)
    (local : list uuid) (new_id : uuid) (d : db)
    : db * list uuid * feedback :=
  match auth_uid ses with
  | None => (d, local, toast_sign_in_required)
  | Some user =>
      if existsb (fun id => id =? movieId) local then
        let where_ w :=
          (Watch.user_id w =? user) && (Watch.movie_id w =? movieId) in
        (fst (transact (delete_from_watchlist ses where_) d),
         filter (fun id => negb (id =? movieId)) local,
         toast_success)
      else
        (fst (transact (returning_unit
                (insert_into_watchlist ses new_id user movieId)) d),
         local ++ [movieId],
         toast_success)
  end.
End Home.

(** The movie page, Home.tsx lines 395-569. *)
Module MovieDetail.
(** [checkWatchlistStatus], lines 462-478: [.single()] gives a row when
    exactly one row matches and no data otherwise; the state is left alone
    when nobody is signed in or the route has no id. *)
Definition checkWatchlistStatus (ses : session) (id : option uuid)
    (isInWatchlist : bool) (d : db) : bool :=
  match auth_uid ses, id with
  | Some user, Some id =>
      match select_from_watchlist ses
              (fun w => (Watch.user_id w =? user) && (Watch.movie_id w =? id)) d
      with
      | [_] => true
      | _ => false
      end
  | _, _ => isInWatchlist
  end.
End MovieDetail.

(** The watchlist page, Watchlist.tsx lines 33-157.  [items] is its
    [watchlistItems] state, of which the rows of [watchlist] are kept. *)
Module WatchlistPage.
(** [handleRemoveFromWatchlist], lines 110-133. *)
Definition handleRemoveFromWatchlist (ses : session) (movieId : uuid)
    (items : list Watch.t) (d : db) : db * list Watch.t * feedback :=
  match auth_uid ses with
  | None => (d, items, nothing)
  | Some user =>
      let where_ w :=
        (Watch.user_id w =? user) && (Watch.movie_id w =? movieId) in
      (fst (transact (delete_from_watchlist ses where_) d),
       filter (fun item => negb (Watch.movie_id item =? movieId)) items,
       toast_success)
  end.

(** [clearAllWatchlist], lines 135-157: nothing is sent when the page
    shows no item. *)
Definition clearAllWatchlist (ses : session) (items : list Watch.t) (d : db)
    : db * list Watch.t * feedback :=
  match auth_uid ses with
  | None => (d, items, nothing)
  | Some user =>
      match items with
      | [] => (d, items, nothing)
      | _ =>
          (fst (transact (delete_from_watchlist ses
                            (fun w => Watch.user_id w =? user)) d),
           [], toast_success)
      end
  end.
End WatchlistPage.

(** The reviews page, [MyReviews]; [local] is its [reviews] state. *)
Module MyReviews.
(** The [totalReviews] and [ratingDistribution] fields of
    [getReviewStats], lines 157-169 (its [averageRating] is a floating-point
    quotient and is left out). *)
Definition totalReviews (local : list Review.t) : nat := length local.

Definition ratingDistribution (local : list Review.t) : list (Z * nat) :=
  map (fun rating =>
         (rating, length (filter (fun review => Review.rating review =? rating)
                                 local)))
      [1; 2; 3; 4; 5].
End MyReviews.

(** ** More of the schema: profiles and the sign-up trigger *)

(** [public.profiles], lines 31-41. *)
Module Profile.
Record t : Set := mk {
  id : uuid;
  user_id : uuid;
  username : string;
  display_name : option string;
  avatar_url : option string;
  bio : option string;
  favorite_genres : list string;
  created_at : timestamptz;
  updated_at : timestamptz
}.
End Profile.

(** The row of [auth.users] as [handle_new_user] reads it: [id], [email]
    (nullable), and what [raw_user_meta_data->>'username'] and
    [raw_user_meta_data->>'display_name'] give (NULL for a missing key). *)
Module AuthUser.
Record t : Set := mk {
  id : uuid;
  email : option string;
  meta_username : option string;
  meta_display_name : option string
}.
End AuthUser.

(** [split_part(s, delimiter, 1)] for a one-character delimiter: the text
    before its first occurrence, all of [s] when there is none. *)
Fixpoint split_part (s : string) (delimiter : Ascii.ascii) : string :=
  match s with
  | EmptyString => EmptyString
  | String c s' =>
      if Ascii.eqb c delimiter then EmptyString
      else String c (split_part s' delimiter)
  end.

(** The character ['@'], code 64. *)
Definition at_sign : Ascii.ascii := Ascii.ascii_of_nat 64.

(** [COALESCE(a, b)] of two nullable values. *)
Definition coalesce {A} (a b : option A) : option A :=
  match a with
  | Some _ => a
  | None => b
  end.

(** The two SQLSTATEs an insert into [profiles] can raise here. *)
Inductive profiles_sqlstate : Set :=
| profiles_not_null_violation
| profiles_unique_violation.

(** [public.handle_new_user()], lines 210-222, fired AFTER INSERT ON
    [auth.users]; [new_id] is what [gen_random_uuid()] draws and [t] is
    [now()].  SECURITY DEFINER: no policy applies.  In order: NOT NULL on
    [username], the arbiter [ON CONFLICT (user_id) DO NOTHING], then the
    other two unique indexes ([id] and [username]), which raise. *)
Definition handle_new_user (NEW : AuthUser.t) (new_id : uuid) (t : timestamptz)
    (profiles : list Profile.t) : profiles_sqlstate + list Profile.t :=
  let from_email := option_map (fun e => split_part e at_sign) (AuthUser.email NEW) in
  match coalesce (AuthUser.meta_username NEW) from_email with
  | None => inl profiles_not_null_violation
  | Some username =>
      if existsb (fun p => Profile.user_id p =? AuthUser.id NEW) profiles then
        inr profiles
      else if existsb (fun p => Profile.id p =? new_id) profiles then
        inl profiles_unique_violation
      else if existsb (fun p => String.eqb (Profile.username p) username)
                      profiles then
        inl profiles_unique_violation
      else
        inr (profiles ++
             [Profile.mk new_id (AuthUser.id NEW) username
                (coalesce (AuthUser.meta_display_name NEW) from_email)
                None None [] t t])
  end.


(** ** More of the client: pure helpers *)

(** [toggleGenre] of the profile page (lines 192-199 of its file), on the
    [favorite_genres] of the form. *)
Definition toggleGenre (genre : string) (favorite_genres : list string)
    : list string :=
  if existsb (String.eqb genre) favorite_genres
  then filter (fun g => negb (String.eqb g genre)) favorite_genres
  else favorite_genres ++ [genre].

(** How [StarRating] (star-rating.tsx, lines 14-78) draws one star. *)
Inductive star_look : Set :=
| star_full      (* "fill-primary text-primary" *)
| star_half      (* "fill-primary/50 text-primary" *)
| star_empty.    (* "fill-none text-muted-foreground" *)

(** The star at [index] (from 0).  [rating] and [hoveredRating] are the
    values of the JavaScript numbers the component is given: rationals, NaN
    and the infinities apart.  The comparisons of the source are exact on
    them and [starRating - 0.5] is computed without rounding;
    [hoveredRating || rating] is [rating] when [hoveredRating] is 0. *)
Definition StarRating_star (interactive : bool) (hoveredRating rating : Q)
    (index : nat) : star_look :=
  let starRating := inject_Z (Z.of_nat index + 1) in
  let displayRating :=
    if interactive
    then (if Qeq_bool hoveredRating 0 then rating else hoveredRating)
    else rating in
  let isFilled := Qle_bool starRating displayRating in
  let isPartial :=
    negb interactive && Qle_bool (starRating - (1 # 2)) rating
    && negb (Qle_bool starRating rating) in
  if isFilled then star_full
  else if isPartial then star_half
  else star_empty.

(** The row of stars, [Array.from({ length: maxRating }, ...)]. *)
Definition StarRating (interactive : bool) (hoveredRating rating : Q)
    (maxRating : nat) : list star_look :=
  map (StarRating_star interactive hoveredRating rating) (seq 0 maxRating).

Definition is_full (l : star_look) : bool :=
  match l with star_full => true | _ => false end.

Definition is_half (l : star_look) : bool :=
  match l with star_half => true | _ => false end.

(** Two sign-ups whose emails share the part before the '@'. *)
Module SignUp.
Definition alice_a : AuthUser.t :=
  AuthUser.mk 1 (Some "alice@a.example"%string) None None.

Definition alice_b : AuthUser.t :=
  AuthUser.mk 2 (Some "alice@b.example"%string) None None.

Definition after_alice_a : list Profile.t :=
  [Profile.mk 31 1 "alice" (Some "alice"%string) None None [] 5 5].
End SignUp.

(** ** More of the client: reading reviews on the movie page *)

(** [ORDER BY key DESC]: the rows by descending key, rows with the same key
    in storage order (SQL leaves their order open). *)
Fixpoint insert_desc {A} (key : A -> Z) (x : A) (l : list A) : list A :=
  match l with
  | [] => [x]
  | y :: l' =>
      if key y <=? key x then x :: y :: l' else y :: insert_desc key x l'
  end.

Fixpoint order_by_desc {A} (key : A -> Z) (l : list A) : list A :=
  match l with
  | [] => []
  | x :: l' => insert_desc key x (order_by_desc key l')
  end.

(** What the page shows of a profile: [display_name] and [username]. *)
Definition names : Set := (option string * string)%type.

Definition names_of (p : Profile.t) : names :=
  (Profile.display_name p, Profile.username p).

Definition unknown_user : names :=
  (Some "Unknown User"%string, "unknown"%string).

Module MovieReviews.
(** [fetchReviews] of the movie page, Home.tsx lines 418-460: the reviews of
    the movie, newest first; the profiles whose user wrote one of them
    ([.in('user_id', userIds)]); each review with the names of the first of
    these profiles that has its user, or the 'Unknown User' names.
    ("Reviews are viewable by everyone" and "Profiles are viewable by
    everyone": both SELECTs see every row.)  With no route id the state is
    left alone. *)
Definition fetchReviews (id : option uuid) (shown : list (Review.t * names))
    (profiles : list Profile.t) (d : db) : list (Review.t * names) :=
  match id with
  | None => shown
  | Some id =>
      let reviewsData :=
        order_by_desc Review.created_at
          (filter (fun r => Review.movie_id r =? id) (reviews d)) in
      match reviewsData with
      | [] => []
      | _ :: _ =>
          let userIds := nodup Z.eq_dec (map Review.user_id reviewsData) in
          let profilesData :=
            filter (fun p => existsb (Z.eqb (Profile.user_id p)) userIds)
                   profiles in
          map (fun review =>
                 (review,
                  match find (fun profile =>
                                Profile.user_id profile
                                =? Review.user_id review)
                             profilesData with
                  | Some profile => names_of profile
                  | None => unknown_user
                  end))
              reviewsData
      end
  end.

(** [checkUserReview], lines 480-518.  [.maybeSingle()] gives no data for
    no row and raises for several; [.single()] on [profiles] raises unless
    exactly one row matches, so that the names given for a missing
    [profileData] are never used; every raise ends in
    [setUserReview(null)]. *)
Definition checkUserReview (ses : session) (id : option uuid)
    (userReview : option (Review.t * names)) (profiles : list Profile.t)
    (d : db) : option (Review.t * names) :=
  match auth_uid ses, id with
  | Some user, Some id =>
      match filter (fun r => (Review.user_id r =? user)
                             && (Review.movie_id r =? id)) (reviews d) with
      | [reviewData] =>
          match filter (fun p => Profile.user_id p =? user) profiles with
          | [profileData] => Some (reviewData, names_of profileData)
          | _ => None
          end
      | _ => None
      end
  | _, _ => userReview
  end.
End MovieReviews.

(** * Properties *)

(** ** The error monad and transactions *)

Lemma bind_Ok {A B} (r : result A) (k : A -> result B) (b : B) :
  bind r k = Ok b -> exists a, r = Ok a /\ k a = Ok b.
Proof. destruct r as [a|e]; simpl; intros H; [eauto | discriminate]. Qed.

Lemma check_Ok {B} b e (k : result B) (x : B) :
  (check b else e ;; k) = Ok x -> b = true /\ k = Ok x.
Proof. destruct b; simpl; intros H; [auto | discriminate]. Qed.

Lemma transact_Err {A} (stmt : db -> result (db * A)) d e :
  stmt d = Err e -> transact stmt d = (d, Err e).
Proof. unfold transact. intros ->. reflexivity. Qed.

Lemma transact_Ok {A} (stmt : db -> result (db * A)) d d' a :
  stmt d = Ok (d', a) -> transact stmt d = (d', Ok a).
Proof. unfold transact. intros ->. reflexivity. Qed.

(** ** Rounding *)

Lemma div_round_nonneg a b :
  0 <= a -> div_round a b = (2 * a + b) / (2 * b).
Proof.
  intros Ha. unfold div_round.
  destruct (Z.ltb_spec a 0); [lia | reflexivity].
Qed.

Lemma div_round_bounds a b :
  0 <= a -> 0 < b ->
  2 * b * div_round a b <= 2 * a + b < 2 * b * div_round a b + 2 * b.
Proof.
  intros Ha Hb. rewrite div_round_nonneg by assumption.
  pose proof (Z.mul_div_le (2 * a + b) (2 * b) ltac:(lia)).
  pose proof (Z.mul_succ_div_gt (2 * a + b) (2 * b) ltac:(lia)).
  lia.
Qed.

Lemma div_round_unique a b z :
  0 <= a -> 0 < b ->
  2 * b * z <= 2 * a + b < 2 * b * z + 2 * b ->
  div_round a b = z.
Proof.
  intros Ha Hb Hz. rewrite div_round_nonneg by assumption.
  symmetry. apply (Z.div_unique _ _ _ (2 * a + b - 2 * b * z)); lia.
Qed.

Lemma div_round_pos a b : 0 <= a -> 0 < b -> 0 <= div_round a b.
Proof.
  intros. rewrite div_round_nonneg by assumption. apply Z.div_pos; lia.
Qed.

(** Rounding a quotient first at a fine unit [1 / (100 * 2h)] and then to
    hundredths gives the quotient rounded to hundredths at once, as long as
    the divisor is below [2h]: no quotient [a / n] lies that close to a
    rounding boundary without being on it. *)
Lemma double_rounding a n h :
  0 <= a -> 0 < n < 2 * h ->
  div_round (div_round (a * (100 * (2 * h))) n) (2 * h) = div_round (100 * a) n.
Proof.
  intros Ha [Hn Hh].
  set (z := div_round (100 * a) n).
  set (q := div_round (a * (100 * (2 * h))) n).
  pose proof (div_round_bounds (100 * a) n ltac:(lia) Hn) as Bz. fold z in Bz.
  pose proof (div_round_bounds (a * (100 * (2 * h))) n ltac:(nia) Hn) as Bq.
  fold q in Bq.
  assert (0 <= q) by (apply div_round_pos; nia).
  apply div_round_unique; try lia.
  split.
  - assert (h * (2 * z - 1) <= q); [|nia].
    assert (n * (h * (2 * z - 1)) < n * (q + 1)); [|nia].
    assert (n * (2 * z - 1) <= 200 * a) by lia.
    assert (h * (n * (2 * z - 1)) <= h * (200 * a))
      by (apply Z.mul_le_mono_nonneg_l; lia).
    nia.
  - assert (q + 1 <= h * (2 * z + 1)); [|nia].
    assert (n * q < n * (h * (2 * z + 1))); [|nia].
    assert (200 * a + 1 <= n * (2 * z + 1)) by lia.
    assert (h * (200 * a + 1) <= h * (n * (2 * z + 1)))
      by (apply Z.mul_le_mono_nonneg_l; lia).
    nia.
Qed.

(** The value stored does not depend on the scale [s >= 3] at which the
    mean was computed, for fewer than [10^(s-2)] rows. *)
Lemma stored_mean_any_scale s a n :
  3 <= s -> 0 <= a -> 0 < n < 10 ^ (s - 2) ->
  div_round (div_round (a * 10 ^ s) n) (10 ^ (s - 2)) = div_round (100 * a) n.
Proof.
  intros Hs Ha Hn.
  assert (E2 : 10 ^ (s - 2) = 2 * (5 * 10 ^ (s - 3))).
  { replace (s - 2) with (Z.succ (s - 3)) by lia.
    rewrite Z.pow_succ_r by lia. lia. }
  assert (E0 : 10 ^ s = 100 * (2 * (5 * 10 ^ (s - 3)))).
  { rewrite <- E2. replace s with (2 + (s - 2)) at 1 by lia.
    rewrite Z.pow_add_r by lia. reflexivity. }
  rewrite E0, E2. apply double_rounding; lia.
Qed.

Lemma sum_nonneg xs : Forall (fun x => 0 <= x) xs -> 0 <= sum xs.
Proof. induction 1; simpl; lia. Qed.

Lemma sum_le_5 xs : Forall (fun x => x <= 5) xs -> sum xs <= 5 * COUNT xs.
Proof.
  unfold COUNT. induction 1; simpl length; simpl sum; [lia|].
  rewrite Nat2Z.inj_succ. lia.
Qed.

(** What the trigger stores for the ratings [xs], whenever the count fits
    an INTEGER: the rounded mean. *)
Lemma stored_average xs :
  Forall (fun x => 0 <= x) xs -> COUNT xs <= 2 ^ 31 - 1 ->
  div_round (COALESCE (AVG avg_rscale xs) 0) (10 ^ (avg_rscale - 2))
  = rounded_mean xs.
Proof.
  intros Hx Hc. destruct xs as [|x xs]; [reflexivity|].
  unfold AVG, COALESCE, rounded_mean. fold (COUNT (x :: xs)).
  apply stored_mean_any_scale.
  - unfold avg_rscale. lia.
  - now apply sum_nonneg.
  - split.
    + unfold COUNT. simpl length. lia.
    + unfold avg_rscale. simpl Z.sub.
      assert (2 ^ 31 - 1 < 10 ^ 14) by (vm_compute; reflexivity). lia.
Qed.

(** ** The trigger function *)

Lemma find_map_frame {A} (p : A -> bool) (f : A -> A) (l : list A) :
  (forall x, p (f x) = p x) -> (forall x, p x = true -> f x = x) ->
  find p (map f l) = find p l.
Proof.
  intros Hp Hf. induction l as [|x l IH]; simpl; [reflexivity|].
  rewrite Hp. destruct (p x) eqn:E; [now rewrite Hf | exact IH].
Qed.

(** For a role subject to row-level security the trigger's UPDATE finds no
    row of [movies] it may write: the function returns and nothing has
    changed. *)
Lemma update_movie_rating_under_rls ses NEW OLD d :
  bypassrls ses = false -> update_movie_rating ses NEW OLD d = Ok d.
Proof.
  intros Hb. unfold update_movie_rating.
  destruct (target_movie_id NEW OLD) as [target|]; [|reflexivity].
  replace (existsb _ (movies d)) with false; [reflexivity|].
  symmetry. apply not_true_is_false. intros H.
  apply existsb_exists in H as (m & _ & H).
  unfold Policy.movies_update in H. rewrite Hb, andb_false_r in H.
  discriminate.
Qed.

(** The shape of every successful run: only [movies] changes, and in it only
    rows whose id is the target, to the stored average [avg] and count
    [cnt]. *)
Lemma update_movie_rating_Ok ses NEW OLD d d' :
  update_movie_rating ses NEW OLD d = Ok d' ->
  d' = d \/
  exists target avg cnt,
    target_movie_id NEW OLD = Some target /\
    bypassrls ses = true /\
    to_decimal_3_2 avg_rscale
      (COALESCE (AVG avg_rscale (map Review.rating (reviews_of target d))) 0)
      = Ok avg /\
    to_integer (COUNT (reviews_of target d)) = Ok cnt /\
    d' = set_movies
           (map (fun m =>
                   if Movie.id m =? target
                   then Movie.mk (Movie.id m) (Movie.title m) avg cnt (now ses)
                   else m)
                (movies d)) d.
Proof.
  intros H. destruct (bypassrls ses) eqn:Hb.
  2:{ rewrite update_movie_rating_under_rls in H by assumption.
      injection H as <-. now left. }
  revert H. unfold update_movie_rating.
  destruct (target_movie_id NEW OLD) as [target|];
    [|intros [= <-]; now left].
  destruct (existsb _ (movies d)); [|intros [= <-]; now left].
  intros H. apply bind_Ok in H as (avg & Havg & H).
  apply bind_Ok in H as (cnt & Hcnt & H).
  injection H as <-. right. exists target, avg, cnt.
  repeat split; try assumption.
  f_equal. apply map_ext. intros m.
  unfold Policy.movies_update, update_movies_updated_at.
  rewrite Hb, andb_true_r. reflexivity.
Qed.

Lemma update_movie_rating_tables ses NEW OLD d d' :
  update_movie_rating ses NEW OLD d = Ok d' ->
  users d' = users d /\ reviews d' = reviews d /\ watchlist d' = watchlist d.
Proof.
  intros H. apply update_movie_rating_Ok in H
    as [-> | (t & avg & cnt & _ & _ & _ & _ & ->)]; auto.
Qed.

(** The rows of movies other than the trigger's target are left as they
    are. *)
Lemma update_movie_rating_frame ses NEW OLD d d' m :
  update_movie_rating ses NEW OLD d = Ok d' ->
  target_movie_id NEW OLD <> Some m ->
  movie_row m d' = movie_row m d.
Proof.
  intros H Hm. apply update_movie_rating_Ok in H
    as [-> | (t & avg & cnt & Ht & _ & _ & _ & ->)]; [reflexivity|].
  unfold movie_row. simpl. apply find_map_frame.
  - intros x. destruct (Movie.id x =? t); reflexivity.
  - intros x Hx. destruct (Z.eqb_spec (Movie.id x) t) as [E|]; [|reflexivity].
    apply Z.eqb_eq in Hx. congruence.
Qed.

(** For a role exempt from row-level security, a successful run leaves
    every row of the target movie with the count of its reviews and their
    rounded mean. *)
Lemma update_movie_rating_exempt ses NEW OLD d d' target m :
  bypassrls ses = true ->
  target_movie_id NEW OLD = Some target ->
  Forall (fun r => 0 <= Review.rating r) (reviews d) ->
  update_movie_rating ses NEW OLD d = Ok d' ->
  In m (movies d') -> Movie.id m = target ->
  Movie.total_reviews m = COUNT (reviews_of target d') /\
  Movie.average_rating m
  = rounded_mean (map Review.rating (reviews_of target d')).
Proof.
  intros Hb Ht Hr H Hin Hid.
  unfold update_movie_rating in H. rewrite Ht in H.
  destruct (existsb _ (movies d)) eqn:Hex.
  2:{ injection H as <-. exfalso.
      apply not_true_iff_false in Hex. apply Hex.
      apply existsb_exists. exists m. split; [assumption|].
      unfold Policy.movies_update. rewrite Hb, andb_true_r.
      now apply Z.eqb_eq. }
  apply bind_Ok in H as (avg & Havg & H).
  apply bind_Ok in H as (cnt & Hcnt & H).
  injection H as <-. unfold reviews_of in *. simpl in *.
  unfold to_integer in Hcnt.
  destruct (_ && _) eqn:Hrange in Hcnt; [|discriminate].
  injection Hcnt as <-.
  apply andb_prop in Hrange as [_ Hmax]. apply Z.leb_le in Hmax.
  unfold to_decimal_3_2 in Havg.
  destruct (Z.abs _ <? 1000) in Havg; [|discriminate].
  injection Havg as <-.
  rewrite stored_average in Hin.
  2:{ apply Forall_forall. intros x Hx. apply in_map_iff in Hx as (r & <- & Hx).
      apply filter_In in Hx as [Hx _].
      rewrite Forall_forall in Hr. now apply Hr. }
  2:{ unfold COUNT in *. rewrite length_map. exact Hmax. }
  apply in_map_iff in Hin as (m0 & Hm0 & _).
  unfold Policy.movies_update in Hm0. rewrite Hb, andb_true_r in Hm0.
  destruct (Movie.id m0 =? target) eqn:E.
  - subst m. simpl. split; reflexivity.
  - subst m0. apply Z.eqb_neq in E. contradiction.
Qed.

(** With every rating within the CHECK constraint and a count that fits an
    INTEGER, the function does not raise. *)
Lemma update_movie_rating_total ses NEW OLD d :
  Forall (fun r => rating_check r = true) (reviews d) ->
  COUNT (reviews d) <= 2 ^ 31 - 1 ->
  exists d', update_movie_rating ses NEW OLD d = Ok d'.
Proof.
  intros Hr Hc. unfold update_movie_rating.
  destruct (target_movie_id NEW OLD) as [target|]; [|eauto].
  destruct (existsb _ (movies d)); [|eauto].
  set (rs := reviews_of target d).
  assert (Hrs : Forall (fun x => 1 <= x <= 5) (map Review.rating rs)).
  { apply Forall_forall. intros x Hx. apply in_map_iff in Hx as (r & <- & Hx).
    apply filter_In in Hx as [Hx _]. rewrite Forall_forall in Hr.
    specialize (Hr r Hx). unfold rating_check in Hr.
    apply andb_prop in Hr as [H1 H2].
    apply Z.leb_le in H1. apply Z.leb_le in H2. lia. }
  assert (Hlen : COUNT rs <= COUNT (reviews d)).
  { unfold COUNT, rs, reviews_of. apply inj_le. apply filter_length_le. }
  assert (0 <= COUNT rs) by (unfold COUNT; lia).
  unfold to_decimal_3_2. rewrite stored_average.
  2:{ eapply Forall_impl; [|exact Hrs]. simpl. intros; lia. }
  2:{ unfold COUNT in *. rewrite length_map. lia. }
  assert (Hm : 0 <= rounded_mean (map Review.rating rs) <= 500).
  { unfold rounded_mean. destruct (map Review.rating rs) as [|x xs] eqn:E;
      [lia|]. rewrite <- E in *.
    assert (0 < COUNT (map Review.rating rs))
      by (rewrite E; unfold COUNT; simpl length; lia).
    assert (0 <= sum (map Review.rating rs))
      by (apply sum_nonneg; eapply Forall_impl; [|exact Hrs]; simpl; intros; lia).
    assert (sum (map Review.rating rs) <= 5 * COUNT (map Review.rating rs))
      by (apply sum_le_5; eapply Forall_impl; [|exact Hrs]; simpl; intros; lia).
    pose proof (div_round_bounds (100 * sum (map Review.rating rs))
                  (COUNT (map Review.rating rs)) ltac:(lia) ltac:(lia)).
    split; [apply div_round_pos; lia | nia]. }
  destruct (Z.ltb_spec (Z.abs (rounded_mean (map Review.rating rs))) 1000);
    [|lia].
  simpl. unfold to_integer.
  destruct (Z.leb_spec (- 2 ^ 31) (COUNT rs)); [|lia].
  destruct (Z.leb_spec (COUNT rs) (2 ^ 31 - 1)); [|lia].
  simpl. eauto.
Qed.

(** ** Statements *)

Lemma pick_Some {A} (p : A -> bool) l pre x post :
  pick p l = Some (pre, x, post) ->
  l = pre ++ x :: post /\ p x = true /\ Forall (fun y => p y = false) pre.
Proof.
  revert pre. induction l as [|y l IH]; simpl; intros pre H; [discriminate|].
  destruct (p y) eqn:E.
  - injection H as <- <- <-. auto.
  - destruct (pick p l) as [[[pre' x'] post']|]; [|discriminate].
    injection H as <- <- <-.
    destruct (IH pre' eq_refl) as (-> & Hx & Hpre). auto.
Qed.

Lemma pick_None {A} (p : A -> bool) l :
  pick p l = None -> Forall (fun y => p y = false) l.
Proof.
  induction l as [|y l IH]; simpl; intros H; [constructor|].
  destruct (p y) eqn:E; [discriminate|].
  destruct (pick p l) as [[[pre x] post]|]; [discriminate|].
  constructor; auto.
Qed.

Lemma pick_exists {A} (p : A -> bool) l x :
  In x l -> p x = true -> exists pre y post, pick p l = Some (pre, y, post).
Proof.
  intros Hin Hp. destruct (pick p l) as [[[pre y] post]|] eqn:E; [eauto|].
  apply pick_None in E. rewrite Forall_forall in E.
  specialize (E x Hin). congruence.
Qed.

Lemma to_integer_Ok n z : to_integer n = Ok z -> z = n.
Proof.
  unfold to_integer. destruct (_ && _); [|discriminate]. now intros [= <-].
Qed.

Lemma to_integer_fits n :
  - 2 ^ 31 <= n <= 2 ^ 31 - 1 -> to_integer n = Ok n.
Proof.
  intros H. unfold to_integer.
  destruct (Z.leb_spec (- 2 ^ 31) n); [|lia].
  destruct (Z.leb_spec n (2 ^ 31 - 1)); [reflexivity | lia].
Qed.

(** A literal that converts is a whole number, and converts to it. *)
Lemma int4in_Ok n z : int4in n = Ok z -> n = integer_literal z.
Proof.
  destruct n as [k|q]; simpl; [|discriminate].
  intros H. now rewrite (to_integer_Ok _ _ H).
Qed.

(** The ratings the CHECK constraint lets pass convert to themselves. *)
Lemma int4in_stars (z : Z) : 1 <= z <= 5 -> int4in z = Ok z.
Proof. intros H. apply to_integer_fits. lia. Qed.

Lemma insert_review_Ok ses id u m r txt d d' :
  insert_review ses id u m r txt d = Ok d' ->
  exists z,
    int4in r = Ok z /\
    let new := Review.mk id u m z txt (now ses) (now ses) in
    insert_checks ses new d = Ok tt /\
    update_movie_rating ses (Some new) None
      (set_reviews (reviews d ++ [new]) d) = Ok d'.
Proof.
  unfold insert_review, insert_into_reviews. intros H.
  apply bind_Ok in H as (z & Hz & H).
  apply bind_Ok in H as ([] & Hc & H). exists z. auto.
Qed.

(** What [apply_set] leaves of a row: every column that is not assigned. *)
Lemma apply_set_Ok s old assigned :
  apply_set s old = Ok assigned ->
  Review.id assigned = COALESCE (set_id s) (Review.id old) /\
  Review.user_id assigned = COALESCE (set_user_id s) (Review.user_id old) /\
  Review.movie_id assigned
  = COALESCE (set_movie_id s) (Review.movie_id old) /\
  (set_rating s = None -> Review.rating assigned = Review.rating old) /\
  Review.created_at assigned
  = COALESCE (set_created_at s) (Review.created_at old).
Proof.
  unfold apply_set. intros H. apply bind_Ok in H as (z & Hz & H).
  injection H as <-. simpl. repeat split.
  intros E. rewrite E in Hz. now injection Hz as <-.
Qed.

Lemma update_review_Ok ses s rid d d' n :
  update_review ses s rid d = Ok (d', n) ->
  (d' = d /\ n = 0%nat) \/
  exists pre old post assigned,
    let new := update_reviews_updated_at ses assigned in
    reviews d = pre ++ old :: post /\
    Review.id old = rid /\
    Policy.reviews_update ses old = true /\
    apply_set s old = Ok assigned /\
    update_checks ses old new (pre ++ post) d = Ok tt /\
    update_movie_rating ses (Some new) (Some old)
      (set_reviews (pre ++ post ++ [new]) d) = Ok d' /\
    n = 1%nat.
Proof.
  unfold update_review, update_reviews, row_to_update. intros H.
  destruct (pick _ (reviews d)) as [[[pre old] post]|] eqn:Hp.
  - right. apply pick_Some in Hp as (Hl & Hold & _).
    apply andb_prop in Hold as [Hid Hpol]. apply Z.eqb_eq in Hid.
    apply bind_Ok in H as (assigned & Ha & H).
    apply bind_Ok in H as ([] & Hc & H).
    apply bind_Ok in H as (d1 & Ht & H). injection H as <- <-.
    exists pre, old, post, assigned. simpl. auto 8.
  - injection H as <- <-. now left.
Qed.

Lemma after_delete_rows_tables ses olds d d' :
  after_delete_rows update_movie_rating ses olds d = Ok d' ->
  users d' = users d /\ reviews d' = reviews d /\ watchlist d' = watchlist d.
Proof.
  revert d. induction olds as [|old olds IH]; simpl; intros d H.
  - injection H as <-. auto.
  - apply bind_Ok in H as (d1 & H1 & H).
    destruct (IH _ H) as (-> & -> & ->).
    now apply update_movie_rating_tables in H1.
Qed.

Lemma after_delete_rows_frame ses olds d d' m :
  after_delete_rows update_movie_rating ses olds d = Ok d' ->
  Forall (fun old => Review.movie_id old <> m) olds ->
  movie_row m d' = movie_row m d.
Proof.
  revert d. induction olds as [|old olds IH]; simpl; intros d H Hm.
  - injection H as <-. reflexivity.
  - apply bind_Ok in H as (d1 & H1 & H).
    inversion Hm as [|? ? Hold Holds]; subst.
    rewrite (IH _ H Holds).
    apply (update_movie_rating_frame _ _ _ _ _ _ H1).
    simpl. congruence.
Qed.

Lemma delete_reviews_Ok ses where_ d d' n :
  delete_reviews ses where_ d = Ok (d', n) ->
  let hit r := where_ r && Policy.reviews_delete ses r in
  after_delete_rows update_movie_rating ses (filter hit (reviews d))
    (set_reviews (filter (fun r => negb (hit r)) (reviews d)) d) = Ok d' /\
  n = length (filter hit (reviews d)).
Proof.
  unfold delete_reviews, delete_from_reviews. intros H.
  apply bind_Ok in H as (d1 & H1 & H). injection H as <- <-. auto.
Qed.

(** Frame of the three statements on the rows of [movies]. *)
Lemma insert_review_frame ses id u M r txt d d' m :
  insert_review ses id u M r txt d = Ok d' ->
  m <> M -> movie_row m d' = movie_row m d.
Proof.
  intros H Hm. apply insert_review_Ok in H as (z & _ & _ & H).
  rewrite (update_movie_rating_frame _ _ _ _ _ m H); [reflexivity|].
  simpl. congruence.
Qed.

Lemma update_review_frame ses s rid d d' n m :
  update_review ses s rid d = Ok (d', n) ->
  (forall old, In old (reviews d) -> Review.id old = rid ->
               COALESCE (set_movie_id s) (Review.movie_id old) <> m) ->
  movie_row m d' = movie_row m d.
Proof.
  intros H Hm. apply update_review_Ok in H
    as [[-> _] | (pre & old & post & new & Hl & Hid & _ & Ha & _ & H & _)];
    [reflexivity|].
  rewrite (update_movie_rating_frame _ _ _ _ _ m H); [reflexivity|].
  apply apply_set_Ok in Ha as (_ & _ & Hmv & _).
  simpl. rewrite Hmv. intros [= E]. apply (Hm old); [|assumption|exact E].
  rewrite Hl. apply in_elt.
Qed.

Lemma delete_reviews_frame ses where_ d d' n m :
  delete_reviews ses where_ d = Ok (d', n) ->
  (forall old, In old (reviews d) -> where_ old = true ->
               Review.movie_id old <> m) ->
  movie_row m d' = movie_row m d.
Proof.
  intros H Hm. apply delete_reviews_Ok in H as [H _].
  rewrite (after_delete_rows_frame _ _ _ _ m H); [reflexivity|].
  apply Forall_forall. intros old Hold.
  apply filter_In in Hold as [Hin Hhit].
  apply andb_prop in Hhit as [Hw _]. now apply Hm.
Qed.

(** ** The aggregate under row-level security *)

(** C1: after a review statement commits, [total_reviews] and
    [average_rating] of every movie are the count and the rounded mean of
    its reviews.  The code does not keep this.  (1) A signed-in user of the
    application inserts the first review of [X]: the review is stored and
    the aggregate of [X] stays (0.00, 0), because the trigger's UPDATE of
    [movies] runs as that user and no policy lets it write.  (2) On a role
    exempt from row-level security a review of [X] is moved to [Y]: the
    trigger recomputes [Y] alone, and [X] keeps (4.00, 1) with no review
    left. *)
Theorem aggregate_not_kept :
  (let d := fst (handleSubmit (Scenario.client Scenario.U1 1)
                   Scenario.X 4 None Scenario.R1 Scenario.start) in
   COUNT (reviews_of Scenario.X d) = 1 /\
   aggregate Scenario.X d = Some (0, 0)) /\
  (let d := fst (transact (update_review (Scenario.exempt Scenario.U1 2)
                             (Scenario.move_to Scenario.Y) Scenario.R1)
                   Scenario.one_review) in
   COUNT (reviews_of Scenario.X d) = 0 /\
   rounded_mean (map Review.rating (reviews_of Scenario.X d)) = 0 /\
   aggregate Scenario.X d = Some (400, 1)).
Proof. vm_compute. repeat split; reflexivity. Qed.

(** C2: Scenario A is to give the aggregates (4.00, 1), (4.50, 2),
    (3.50, 2), (2.00, 1), (0.00, 0).  Run by signed-in users of the
    application, every statement succeeds (the review counts on the right
    are 1, 2, 2, 1, 0) and the aggregate is (0.00, 0) after each step. *)
Theorem scenario_A_as_client :
  Scenario.A Scenario.client
  = [(Some (0, 0), 1); (Some (0, 0), 2); (Some (0, 0), 2);
     (Some (0, 0), 1); (Some (0, 0), 0)].
Proof. vm_compute. reflexivity. Qed.

(** The same steps on a role exempt from row-level security give the
    aggregates the scenario expects: the arithmetic of the trigger is the
    specified one. *)
Lemma scenario_A_on_exempt_role :
  Scenario.A Scenario.exempt
  = [(Some (400, 1), 1); (Some (450, 2), 2); (Some (350, 2), 2);
     (Some (200, 1), 1); (Some (0, 0), 0)].
Proof. vm_compute. reflexivity. Qed.

(** C3: deleting the only remaining review of a movie is to reset its
    aggregate to (0.00, 0).  U1, signed in to the application, deletes the
    only review of [X]: the review is gone and [X] keeps (4.00, 1). *)
Theorem delete_last_review_as_client :
  let d := fst (handleDeleteReview (Scenario.client Scenario.U1 2)
                  Scenario.R1 true Scenario.one_review) in
  reviews d = [] /\ aggregate Scenario.X d = Some (400, 1).
Proof. vm_compute. split; reflexivity. Qed.

(** ** Frame of the recomputation *)

(** C8: a review insert, update or delete whose target movie is [M] writes
    back to the row of [M] only; the row of every other movie [m], and with
    it [average_rating] and [total_reviews], is as before.  The target of an
    update is the movie the row points to afterwards, the targets of a
    delete are the movies of the deleted rows. *)
Theorem recomputation_writes_target_only ses d d' m :
  (forall id u M r txt,
      insert_review ses id u M r txt d = Ok d' -> m <> M ->
      movie_row m d' = movie_row m d /\ aggregate m d' = aggregate m d) /\
  (forall s rid n,
      update_review ses s rid d = Ok (d', n) ->
      (forall old, In old (reviews d) -> Review.id old = rid ->
                   COALESCE (set_movie_id s) (Review.movie_id old) <> m) ->
      movie_row m d' = movie_row m d /\ aggregate m d' = aggregate m d) /\
  (forall where_ n,
      delete_reviews ses where_ d = Ok (d', n) ->
      (forall old, In old (reviews d) -> where_ old = true ->
                   Review.movie_id old <> m) ->
      movie_row m d' = movie_row m d /\ aggregate m d' = aggregate m d).
Proof.
  assert (Hagg : movie_row m d' = movie_row m d ->
                 movie_row m d' = movie_row m d /\
                 aggregate m d' = aggregate m d).
  { intros E. split; [exact E|]. unfold aggregate. now rewrite E. }
  split; [|split]; intros; apply Hagg.
  - eapply insert_review_frame; eassumption.
  - eapply update_review_frame; eassumption.
  - eapply delete_reviews_frame; eassumption.
Qed.

Lemma recomputation_writes_target_only_witness :
  (exists d',
      insert_review (Scenario.exempt Scenario.U2 2) Scenario.R2 Scenario.U2
        Scenario.X 5 None Scenario.one_review = Ok d' /\
      Scenario.Y <> Scenario.X /\
      aggregate Scenario.X d' = Some (450, 2) /\
      aggregate Scenario.Y d' = aggregate Scenario.Y Scenario.one_review) /\
  (exists d',
      update_review (Scenario.exempt Scenario.U1 2) (Scenario.set_rating_to 2)
        Scenario.R1 Scenario.one_review = Ok (d', 1%nat) /\
      aggregate Scenario.X d' = Some (200, 1) /\
      aggregate Scenario.Y d' = aggregate Scenario.Y Scenario.one_review) /\
  (exists d',
      delete_reviews (Scenario.exempt Scenario.U1 2)
        (Scenario.by_id Scenario.R1) Scenario.one_review = Ok (d', 1%nat) /\
      aggregate Scenario.X d' = Some (0, 0) /\
      aggregate Scenario.Y d' = aggregate Scenario.Y Scenario.one_review).
Proof.
  assert (Hrow : forall old,
             In old (reviews Scenario.one_review) ->
             Review.movie_id old <> Scenario.Y).
  { intros old [<-|[]]. discriminate. }
  split; [|split]; eexists.
  - split; [vm_compute; reflexivity|].
    split; [discriminate|]. split; [vm_compute; reflexivity|].
    refine (proj2 (proj1 (recomputation_writes_target_only
                            (Scenario.exempt Scenario.U2 2)
                            Scenario.one_review _ Scenario.Y)
                     Scenario.R2 Scenario.U2 Scenario.X 5 None _ _));
      [vm_compute; reflexivity | discriminate].
  - split; [vm_compute; reflexivity|]. split; [vm_compute; reflexivity|].
    refine (proj2 (proj1 (proj2 (recomputation_writes_target_only
                                   (Scenario.exempt Scenario.U1 2)
                                   Scenario.one_review _ Scenario.Y))
                     (Scenario.set_rating_to 2) Scenario.R1 1%nat _ _));
      [vm_compute; reflexivity | intros old Hold _; now apply Hrow].
  - split; [vm_compute; reflexivity|]. split; [vm_compute; reflexivity|].
    refine (proj2 (proj2 (proj2 (recomputation_writes_target_only
                                   (Scenario.exempt Scenario.U1 2)
                                   Scenario.one_review _ Scenario.Y))
                     (Scenario.by_id Scenario.R1) 1%nat _ _));
      [vm_compute; reflexivity | intros old Hold _; now apply Hrow].
Defined.

(** C10: when an update moves a review from movie [A] to another movie
    [B], the row trigger is called with both rows and its target,
    [COALESCE(NEW.movie_id, OLD.movie_id)], is [B]; the row of [A], and so
    its [average_rating] and [total_reviews], is not written. *)
Theorem moved_review_recomputes_new_movie_only
    ses sid su sr st sc sup rid A B d d' n :
  update_review ses (mkset sid su (Some B) sr st sc sup) rid d = Ok (d', n) ->
  A <> B ->
  (forall NEW OLD,
      Review.movie_id OLD = A -> Review.movie_id NEW = B ->
      target_movie_id (Some NEW) (Some OLD) = Some B) /\
  movie_row A d' = movie_row A d /\
  aggregate A d' = aggregate A d.
Proof.
  intros H HAB. split.
  - intros NEW OLD _ <-. reflexivity.
  - assert (E : movie_row A d' = movie_row A d).
    { eapply update_review_frame; [exact H|]. simpl. congruence. }
    split; [exact E|]. unfold aggregate. now rewrite E.
Qed.

Lemma moved_review_recomputes_new_movie_only_witness :
  exists d',
    update_review (Scenario.exempt Scenario.U1 2)
      (mkset None None (Some Scenario.Y) None None None None) Scenario.R1
      Scenario.one_review = Ok (d', 1%nat) /\
    Scenario.X <> Scenario.Y /\
    COUNT (reviews_of Scenario.X d') = 0 /\
    aggregate Scenario.Y d' = Some (400, 1) /\
    aggregate Scenario.X d' = aggregate Scenario.X Scenario.one_review.
Proof.
  eexists. split; [vm_compute; reflexivity|].
  split; [discriminate|]. split; [vm_compute; reflexivity|].
  split; [vm_compute; reflexivity|].
  refine (proj2 (proj2 (moved_review_recomputes_new_movie_only
                          (Scenario.exempt Scenario.U1 2)
                          None None None None None None
                          Scenario.R1 Scenario.X Scenario.Y
                          Scenario.one_review _ 1%nat _ _)));
    [vm_compute; reflexivity | discriminate].
Defined.

(** ** Ownership *)

Lemma pick_none_of {A} (p : A -> bool) l :
  Forall (fun y => p y = false) l -> pick p l = None.
Proof.
  induction 1 as [|y l Hy _ IH]; simpl; [reflexivity|].
  now rewrite Hy, IH.
Qed.

Lemma filter_none {A} (p : A -> bool) l :
  Forall (fun y => p y = false) l ->
  filter p l = [] /\ filter (fun y => negb (p y)) l = l.
Proof.
  induction 1 as [|y l Hy _ [IH1 IH2]]; simpl; [auto|].
  rewrite Hy. simpl. rewrite IH1, IH2. auto.
Qed.

Lemma set_reviews_same d : set_reviews (reviews d) d = d.
Proof. destruct d; reflexivity. Qed.

Lemma NoDup_map_inj {A B} (f : A -> B) l a b :
  NoDup (map f l) -> In a l -> In b l -> f a = f b -> a = b.
Proof.
  induction l as [|x l IH]; simpl; intros Hnd Ha Hb E; [contradiction|].
  inversion Hnd as [|? ? Hx Hl]; subst.
  destruct Ha as [<-|Ha], Hb as [<-|Hb]; auto.
  - exfalso. apply Hx. rewrite E. now apply in_map.
  - exfalso. apply Hx. rewrite <- E. now apply in_map.
Qed.

(** A delete that no row satisfies removes nothing and fires nothing. *)
Lemma delete_reviews_no_row ses where_ d :
  Forall (fun r => where_ r && Policy.reviews_delete ses r = false) (reviews d) ->
  delete_reviews ses where_ d = Ok (d, 0%nat).
Proof.
  intros H. unfold delete_reviews, delete_from_reviews.
  destruct (filter_none _ _ H) as [-> ->]. simpl.
  now rewrite set_reviews_same.
Qed.

(** C5, as the code has it: for a review [R] and a user [U] other than its
    owner, signed in on a role subject to row-level security, an update or a
    delete of [R] raises nothing: the policy hides [R] from the statement,
    which affects no row.  The database, so [R] and every aggregate, is
    unchanged; [handleDeleteReview] shows its success toast. *)
Theorem foreign_review_is_hidden ses U R s d :
  unique_ids (reviews d) -> In R (reviews d) ->
  auth_uid ses = Some U -> bypassrls ses = false ->
  U <> Review.user_id R ->
  update_review ses s (Review.id R) d = Ok (d, 0%nat) /\
  delete_reviews ses (fun r => Review.id r =? Review.id R) d = Ok (d, 0%nat) /\
  handleDeleteReview ses (Review.id R) true d = (d, toast_success).
Proof.
  intros Hids HR HU Hb Hneq.
  assert (Hhid : forall r, In r (reviews d) -> Review.id r = Review.id R ->
                           bypassrls ses || auth_uid_is ses (Review.user_id r)
                           = false).
  { intros r Hr E.
    rewrite (NoDup_map_inj Review.id _ r R Hids Hr HR E).
    rewrite Hb. unfold auth_uid_is. rewrite HU. simpl.
    now apply Z.eqb_neq. }
  assert (Hdel : delete_reviews ses (fun r => Review.id r =? Review.id R) d
                 = Ok (d, 0%nat)).
  { apply delete_reviews_no_row. apply Forall_forall. intros r Hr.
    unfold Policy.reviews_delete.
    destruct (Z.eqb_spec (Review.id r) (Review.id R)) as [E|]; [|reflexivity].
    now rewrite (Hhid r Hr E). }
  split; [|split].
  - unfold update_review, update_reviews, row_to_update.
    rewrite pick_none_of; [reflexivity|].
    apply Forall_forall. intros r Hr. unfold Policy.reviews_update.
    destruct (Z.eqb_spec (Review.id r) (Review.id R)) as [E|]; [|reflexivity].
    now rewrite (Hhid r Hr E).
  - exact Hdel.
  - unfold handleDeleteReview. rewrite HU. simpl.
    erewrite transact_Ok; [reflexivity|].
    apply delete_reviews_no_row. apply Forall_forall. intros r Hr.
    unfold Policy.reviews_delete.
    destruct (Z.eqb_spec (Review.id r) (Review.id R)) as [E|]; [|reflexivity].
    rewrite (Hhid r Hr E). now rewrite andb_false_r.
Qed.

Lemma foreign_review_is_hidden_witness :
  unique_ids (reviews Scenario.one_review) /\
  In (Review.mk Scenario.R1 Scenario.U1 Scenario.X 4 None 1 1)
     (reviews Scenario.one_review) /\
  Scenario.U2 <> Scenario.U1 /\
  update_review (Scenario.client Scenario.U2 2) (Scenario.set_rating_to 1)
    Scenario.R1 Scenario.one_review = Ok (Scenario.one_review, 0%nat) /\
  delete_reviews (Scenario.client Scenario.U2 2) (Scenario.by_id Scenario.R1)
    Scenario.one_review = Ok (Scenario.one_review, 0%nat) /\
  handleDeleteReview (Scenario.client Scenario.U2 2) Scenario.R1 true
    Scenario.one_review = (Scenario.one_review, toast_success).
Proof.
  assert (Hids : unique_ids (reviews Scenario.one_review)).
  { unfold unique_ids. simpl. constructor; [intros []|constructor]. }
  split; [exact Hids|]. split; [left; reflexivity|].
  split; [discriminate|].
  exact (foreign_review_is_hidden (Scenario.client Scenario.U2 2) Scenario.U2
           (Review.mk Scenario.R1 Scenario.U1 Scenario.X 4 None 1 1)
           (Scenario.set_rating_to 1) Scenario.one_review
           Hids (or_introl eq_refl) eq_refl eq_refl
           ltac:(discriminate)).
Defined.

(** C5 as stated fails: U2 deletes, and updates, the review of U1.  Neither
    statement raises [insufficient_privilege]; each completes with zero
    rows, and the handler reports success. *)
Lemma foreign_delete_raises_nothing :
  transact (delete_reviews (Scenario.client Scenario.U2 2)
              (Scenario.by_id Scenario.R1)) Scenario.one_review
  = (Scenario.one_review, Ok 0%nat) /\
  transact (update_review (Scenario.client Scenario.U2 2)
              (Scenario.set_rating_to 1) Scenario.R1) Scenario.one_review
  = (Scenario.one_review, Ok 0%nat) /\
  handleDeleteReview (Scenario.client Scenario.U2 2) Scenario.R1 true
    Scenario.one_review = (Scenario.one_review, toast_success).
Proof. vm_compute. repeat split; reflexivity. Qed.

(** ** Rejected ratings *)

Lemma rating_check_false r :
  ~ (1 <= Review.rating r <= 5) -> rating_check r = false.
Proof.
  intros H. unfold rating_check.
  destruct (Z.leb_spec 1 (Review.rating r)); simpl; [|reflexivity].
  destruct (Z.leb_spec (Review.rating r) 5); [lia | reflexivity].
Qed.

Lemma rating_check_true r :
  1 <= Review.rating r <= 5 -> rating_check r = true.
Proof.
  intros H. unfold rating_check.
  destruct (Z.leb_spec 1 (Review.rating r)); [|lia].
  destruct (Z.leb_spec (Review.rating r) 5); [reflexivity | lia].
Qed.

Lemma auth_uid_is_self ses u : auth_uid ses = Some u -> auth_uid_is ses u = true.
Proof. unfold auth_uid_is. intros ->. apply Z.eqb_refl. Qed.

(** C6: an insert by the signed-in user, or an update of a review the
    session may update, whose rating is not a whole number within 1..5 is
    refused (InvalidInput): with [invalid_text_representation] when the
    rating is written with a fraction or an exponent, with
    [numeric_value_out_of_range] when it is a whole number that does not fit
    an INTEGER, and with [check_violation] otherwise.  This holds for
    whatever function [after_row] is bound as the row trigger, so the
    recomputation is not run; the transaction leaves the database, reviews
    and aggregates, as it was.  [handleSubmit] reports the error for every
    such rating it sends, that is every one but 0. *)
Theorem rating_outside_1_5_is_rejected (after_row : trigger) ses user d
    (rating : json_number) :
  auth_uid ses = Some user ->
  (forall z, rating = integer_literal z -> ~ (1 <= z <= 5)) ->
  let e := match int4in rating with
           | Ok _ => check_violation
           | Err raised => raised
           end in
  (forall q, rating = decimal_literal q -> e = invalid_text_representation) /\
  (forall z, rating = integer_literal z ->
             ~ (- 2 ^ 31 <= z <= 2 ^ 31 - 1) ->
             e = numeric_value_out_of_range) /\
  (forall z, rating = integer_literal z ->
             - 2 ^ 31 <= z <= 2 ^ 31 - 1 -> e = check_violation) /\
  (forall id movie txt,
      insert_into_reviews after_row ses id user movie rating txt d = Err e /\
      transact (returning_unit
                  (insert_into_reviews after_row ses id user movie rating txt))
               d
      = (d, Err e)) /\
  (forall R sid movie' txt sc sup,
      In R (reviews d) -> Policy.reviews_update ses R = true ->
      update_reviews after_row ses
        (mkset sid None movie' (Some rating) txt sc sup) (Review.id R) d
      = Err e /\
      transact (update_reviews after_row ses
                  (mkset sid None movie' (Some rating) txt sc sup)
                  (Review.id R)) d
      = (d, Err e)) /\
  (forall z id movie txt,
      rating = integer_literal z -> z <> 0 ->
      handleSubmit ses movie z txt id d = (d, toast_error e)).
Proof.
  intros Hu Hr e.
  assert (Hins : forall trg id movie txt,
             insert_into_reviews trg ses id user movie rating txt d = Err e).
  { intros trg id movie txt. unfold insert_into_reviews. subst e.
    destruct (int4in rating) as [z|raised] eqn:Hz; simpl; [|reflexivity].
    apply int4in_Ok in Hz. specialize (Hr z Hz).
    unfold insert_checks, Policy.reviews_insert. simpl Review.user_id.
    rewrite (auth_uid_is_self _ _ Hu), orb_true_r.
    rewrite rating_check_false by exact Hr. reflexivity. }
  split; [|split; [|split; [|split; [|split]]]].
  - intros q ->. reflexivity.
  - intros z -> Hz. subst e. unfold int4in, to_integer.
    destruct (Z.leb_spec (- 2 ^ 31) z);
      destruct (Z.leb_spec z (2 ^ 31 - 1)); simpl; try reflexivity; lia.
  - intros z -> Hz. subst e. simpl. now rewrite to_integer_fits.
  - intros id movie txt. split; [apply Hins|].
    apply transact_Err. unfold returning_unit. now rewrite Hins.
  - intros R sid movie' txt sc sup HR Hpol.
    assert (E : update_reviews after_row ses
                  (mkset sid None movie' (Some rating) txt sc sup)
                  (Review.id R) d
                = Err e).
    { unfold update_reviews, row_to_update.
      destruct (pick_exists
                  (fun r => (Review.id r =? Review.id R)
                            && Policy.reviews_update ses r)
                  (reviews d) R HR) as (pre & old & post & Hp).
      { now rewrite Z.eqb_refl, Hpol. }
      rewrite Hp. apply pick_Some in Hp as (_ & Hold & _).
      apply andb_prop in Hold as [_ Hold].
      unfold apply_set. simpl set_rating. subst e.
      destruct (int4in rating) as [z|raised] eqn:Hz; simpl; [|reflexivity].
      apply int4in_Ok in Hz. specialize (Hr z Hz).
      unfold update_checks.
      replace (Policy.reviews_update ses _) with true
        by (symmetry; exact Hold).
      rewrite rating_check_false by exact Hr. reflexivity. }
    split; [exact E|]. now apply transact_Err.
  - intros z id movie txt -> H0. unfold handleSubmit. rewrite Hu.
    destruct (Z.eqb_spec z 0) as [|_]; [contradiction|].
    erewrite transact_Err; [reflexivity|].
    unfold returning_unit, insert_review. now rewrite Hins.
Qed.

Lemma rating_outside_1_5_is_rejected_witness :
  transact (returning_unit
              (insert_review (Scenario.client Scenario.U2 2) Scenario.R2
                 Scenario.U2 Scenario.X 9 None)) Scenario.one_review
  = (Scenario.one_review, Err check_violation) /\
  transact (returning_unit
              (insert_review (Scenario.client Scenario.U2 2) Scenario.R2
                 Scenario.U2 Scenario.X (2 ^ 31) None)) Scenario.one_review
  = (Scenario.one_review, Err numeric_value_out_of_range) /\
  transact (returning_unit
              (insert_review (Scenario.client Scenario.U2 2) Scenario.R2
                 Scenario.U2 Scenario.X (decimal_literal (9 # 2)) None))
           Scenario.one_review
  = (Scenario.one_review, Err invalid_text_representation) /\
  transact (update_review (Scenario.client Scenario.U1 2)
              (Scenario.set_rating_to (decimal_literal (9 # 2))) Scenario.R1)
           Scenario.one_review
  = (Scenario.one_review, Err invalid_text_representation) /\
  transact (update_review (Scenario.client Scenario.U1 2)
              (Scenario.set_rating_to 0) Scenario.R1) Scenario.one_review
  = (Scenario.one_review, Err check_violation) /\
  handleSubmit (Scenario.client Scenario.U2 2) Scenario.X 9 None Scenario.R2
    Scenario.one_review
  = (Scenario.one_review, toast_error check_violation).
Proof.
  assert (Hwhole : forall k, ~ (1 <= k <= 5) ->
             forall z, integer_literal k = integer_literal z ->
                       ~ (1 <= z <= 5)).
  { intros k Hk z [= <-]. exact Hk. }
  assert (Hdec : forall q z, decimal_literal q = integer_literal z ->
                             ~ (1 <= z <= 5)) by discriminate.
  pose proof (rating_outside_1_5_is_rejected update_movie_rating
                (Scenario.client Scenario.U2 2) Scenario.U2
                Scenario.one_review 9 eq_refl (Hwhole 9 ltac:(lia))) as H9.
  pose proof (rating_outside_1_5_is_rejected update_movie_rating
                (Scenario.client Scenario.U2 2) Scenario.U2
                Scenario.one_review (2 ^ 31) eq_refl
                (Hwhole (2 ^ 31) ltac:(lia))) as Hbig.
  pose proof (rating_outside_1_5_is_rejected update_movie_rating
                (Scenario.client Scenario.U2 2) Scenario.U2
                Scenario.one_review (decimal_literal (9 # 2)) eq_refl
                (Hdec (9 # 2)%Q)) as Hhalf.
  pose proof (rating_outside_1_5_is_rejected update_movie_rating
                (Scenario.client Scenario.U1 2) Scenario.U1
                Scenario.one_review (decimal_literal (9 # 2)) eq_refl
                (Hdec (9 # 2)%Q)) as Hupd.
  pose proof (rating_outside_1_5_is_rejected update_movie_rating
                (Scenario.client Scenario.U1 2) Scenario.U1
                Scenario.one_review 0 eq_refl (Hwhole 0 ltac:(lia))) as H0.
  cbv zeta in H9, Hbig, Hhalf, Hupd, H0.
  destruct H9 as (_ & _ & _ & Hins9 & _ & Hsub9).
  destruct Hbig as (_ & _ & _ & Hinsbig & _).
  destruct Hhalf as (_ & _ & _ & Hinshalf & _).
  destruct Hupd as (_ & _ & _ & _ & Hupdhalf & _).
  destruct H0 as (_ & _ & _ & _ & Hupd0 & _).
  split; [exact (proj2 (Hins9 Scenario.R2 Scenario.X None))|].
  split; [exact (proj2 (Hinsbig Scenario.R2 Scenario.X None))|].
  split; [exact (proj2 (Hinshalf Scenario.R2 Scenario.X None))|].
  split.
  { exact (proj2 (Hupdhalf
                    (Review.mk Scenario.R1 Scenario.U1 Scenario.X 4 None 1 1)
                    None None None None None (or_introl eq_refl) eq_refl)). }
  split.
  { exact (proj2 (Hupd0
                    (Review.mk Scenario.R1 Scenario.U1 Scenario.X 4 None 1 1)
                    None None None None None (or_introl eq_refl) eq_refl)). }
  exact (Hsub9 9 Scenario.R2 Scenario.X None eq_refl ltac:(discriminate)).
Defined.

(** ** Atomicity *)






Lemma filter_all {A} (p : A -> bool) l :
  Forall (fun x => p x = true) l -> filter p l = l.
Proof. induction 1 as [|x l Hx _ IH]; simpl; [reflexivity|]. now rewrite Hx, IH. Qed.







(** ** Uniqueness *)

Section Keys.

Context {A K : Type} (key : A -> K).

Lemma NoDup_key_snoc l x :
  NoDup (map key l) -> ~ In (key x) (map key l) ->
  NoDup (map key (l ++ [x])).
Proof.
  intros Hl Hx. rewrite map_app. simpl.
  apply NoDup_app; [assumption | constructor; [intros []|constructor] |].
  intros a Ha [<-|[]]. contradiction.
Qed.

Lemma NoDup_key_replace pre old new post :
  NoDup (map key (pre ++ old :: post)) ->
  ~ In (key new) (map key (pre ++ post)) ->
  NoDup (map key (pre ++ post ++ [new])).
Proof.
  intros Hl Hnew. rewrite app_assoc. apply NoDup_key_snoc; [|assumption].
  rewrite map_app in *. simpl in Hl. now apply NoDup_remove_1 in Hl.
Qed.

Lemma NoDup_key_filter (p : A -> bool) l :
  NoDup (map key l) -> NoDup (map key (filter p l)).
Proof.
  induction l as [|x l IH]; simpl; intros H; [constructor|].
  inversion H as [|? ? Hx Hl]; subst.
  destruct (p x); simpl; [|auto].
  constructor; [|auto]. intros Hin. apply Hx.
  apply in_map_iff in Hin as (y & E & Hy). apply filter_In in Hy as [Hy _].
  rewrite <- E. now apply in_map.
Qed.

(** Rows selected by their key are at most one. *)
Lemma NoDup_key_at_most_one (p : A -> bool) (k : K) l :
  (forall a, p a = true -> key a = k) ->
  NoDup (map key l) -> (length (filter p l) <= 1)%nat.
Proof.
  intros Hp. induction l as [|x l IH]; simpl; intros H; [lia|].
  inversion H as [|? ? Hx Hl]; subst.
  destruct (p x) eqn:E; [|auto].
  replace (filter p l) with (@nil A); [simpl; lia|].
  symmetry. destruct (filter p l) as [|y ys] eqn:F; [reflexivity|].
  exfalso. apply Hx.
  assert (Hy : In y (filter p l)) by (rewrite F; now left).
  apply filter_In in Hy as [Hy Hpy].
  rewrite (Hp x E), <- (Hp y Hpy). now apply in_map.
Qed.

End Keys.

Lemma same_pair_true a b : same_pair a b = true <-> review_pair a = review_pair b.
Proof.
  unfold same_pair, review_pair. rewrite andb_true_iff, !Z.eqb_eq.
  split; [intros [-> ->]; reflexivity | intros [= -> ->]; auto].
Qed.

Lemma same_entry_true a b : same_entry a b = true <-> watch_pair a = watch_pair b.
Proof.
  unfold same_entry, watch_pair. rewrite andb_true_iff, !Z.eqb_eq.
  split; [intros [-> ->]; reflexivity | intros [= -> ->]; auto].
Qed.

Lemma no_same_pair new rs :
  negb (existsb (same_pair new) rs) = true ->
  ~ In (review_pair new) (map review_pair rs).
Proof.
  intros H Hin. apply negb_true_iff in H.
  apply in_map_iff in Hin as (r & E & Hr).
  assert (existsb (same_pair new) rs = true); [|congruence].
  apply existsb_exists. exists r. split; [assumption|].
  now apply same_pair_true.
Qed.

Lemma no_same_entry new ws :
  negb (existsb (same_entry new) ws) = true ->
  ~ In (watch_pair new) (map watch_pair ws).
Proof.
  intros H Hin. apply negb_true_iff in H.
  apply in_map_iff in Hin as (w & E & Hw).
  assert (existsb (same_entry new) ws = true); [|congruence].
  apply existsb_exists. exists w. split; [assumption|].
  now apply same_entry_true.
Qed.

Lemma insert_checks_Ok ses new d :
  insert_checks ses new d = Ok tt ->
  rating_check new = true /\
  ~ In (Review.id new) (map Review.id (reviews d)) /\
  ~ In (review_pair new) (map review_pair (reviews d)).
Proof.
  unfold insert_checks. intros H.
  apply check_Ok in H as [_ H]. apply check_Ok in H as [Hr H].
  apply check_Ok in H as [Hid H]. apply check_Ok in H as [Hp _].
  split; [assumption|]. split; [|now apply no_same_pair].
  intros Hin. apply negb_true_iff in Hid.
  apply in_map_iff in Hin as (r & E & Hin).
  assert (existsb (fun r => Review.id r =? Review.id new) (reviews d) = true);
    [|congruence].
  apply existsb_exists. exists r. split; [assumption|]. now apply Z.eqb_eq.
Qed.

Lemma no_same_id new rs :
  negb (existsb (fun r => Review.id r =? Review.id new) rs) = true ->
  ~ In (Review.id new) (map Review.id rs).
Proof.
  intros H Hin. apply negb_true_iff in H.
  apply in_map_iff in Hin as (r & E & Hin).
  assert (existsb (fun r => Review.id r =? Review.id new) rs = true);
    [|congruence].
  apply existsb_exists. exists r. split; [assumption|]. now apply Z.eqb_eq.
Qed.

Lemma update_checks_Ok ses old new others d :
  update_checks ses old new others d = Ok tt ->
  rating_check new = true /\
  ~ In (Review.id new) (map Review.id others) /\
  ~ In (review_pair new) (map review_pair others).
Proof.
  unfold update_checks. intros H.
  apply check_Ok in H as [_ H]. apply check_Ok in H as [Hr H].
  apply check_Ok in H as [Hid H]. apply check_Ok in H as [Hp _].
  split; [assumption|].
  split; [now apply no_same_id | now apply no_same_pair].
Qed.

(** The unique index on [(user_id, movie_id)] is kept by every statement
    on [reviews]. *)
Lemma insert_review_unique ses id u m r txt d d' :
  insert_review ses id u m r txt d = Ok d' ->
  unique_pairs (reviews d) -> unique_pairs (reviews d').
Proof.
  intros H Hu. apply insert_review_Ok in H as (z & _ & Hc & H).
  apply update_movie_rating_tables in H as (_ & -> & _). simpl.
  apply insert_checks_Ok in Hc as (_ & _ & Hp).
  now apply NoDup_key_snoc.
Qed.

Lemma update_review_unique ses s rid d d' n :
  update_review ses s rid d = Ok (d', n) ->
  unique_pairs (reviews d) -> unique_pairs (reviews d').
Proof.
  intros H Hu. apply update_review_Ok in H
    as [[-> _] | (pre & old & post & new & Hl & _ & _ & _ & Hc & H & _)];
    [assumption|].
  apply update_movie_rating_tables in H as (_ & -> & _). simpl.
  apply update_checks_Ok in Hc as (_ & _ & Hp).
  unfold unique_pairs in *. rewrite Hl in Hu.
  eapply NoDup_key_replace; eassumption.
Qed.

Lemma delete_reviews_unique ses where_ d d' n :
  delete_reviews ses where_ d = Ok (d', n) ->
  unique_pairs (reviews d) -> unique_pairs (reviews d').
Proof.
  intros H Hu. apply delete_reviews_Ok in H as [H _].
  apply after_delete_rows_tables in H as (_ & -> & _). simpl.
  now apply NoDup_key_filter.
Qed.

Lemma insert_into_watchlist_Ok ses id u m d d' :
  insert_into_watchlist ses id u m d = Ok d' ->
  let new := Watch.mk id u m (now ses) in
  ~ In (watch_pair new) (map watch_pair (watchlist d)) /\
  d' = set_watchlist (watchlist d ++ [new]) d.
Proof.
  unfold insert_into_watchlist. intros H.
  apply check_Ok in H as [_ H]. apply check_Ok in H as [_ H].
  apply check_Ok in H as [Hp H]. apply check_Ok in H as [_ H].
  apply check_Ok in H as [_ H]. injection H as <-.
  split; [now apply no_same_entry | reflexivity].
Qed.

(** What one request does to each table. *)
Lemma request_reviews ses st d :
  unique_pairs (reviews d) -> unique_pairs (reviews (request ses st d)).
Proof.
  intros Hu. destruct st as [id u m r txt|s rid|where_|id u m|where_]; simpl.
  - unfold transact, returning_unit.
    destruct (insert_review ses id u m r txt d) as [d'|e] eqn:E; simpl;
      [|assumption].
    eapply insert_review_unique; eassumption.
  - unfold transact.
    destruct (update_review ses s rid d) as [[d' n]|e] eqn:E; simpl;
      [|assumption].
    eapply update_review_unique; eassumption.
  - unfold transact.
    destruct (delete_reviews ses where_ d) as [[d' n]|e] eqn:E; simpl;
      [|assumption].
    eapply delete_reviews_unique; eassumption.
  - unfold transact, returning_unit.
    destruct (insert_into_watchlist ses id u m d) as [d'|e] eqn:E; simpl;
      [|assumption].
    apply insert_into_watchlist_Ok in E as [_ ->]. assumption.
  - assumption.
Qed.

Lemma request_watchlist ses st d :
  unique_entries (watchlist d) -> unique_entries (watchlist (request ses st d)).
Proof.
  intros Hu. destruct st as [id u m r txt|s rid|where_|id u m|where_]; simpl.
  - unfold transact, returning_unit.
    destruct (insert_review ses id u m r txt d) as [d'|e] eqn:E; simpl;
      [|assumption].
    apply insert_review_Ok in E as (z & _ & _ & E).
    apply update_movie_rating_tables in E as (_ & _ & ->). assumption.
  - unfold transact.
    destruct (update_review ses s rid d) as [[d' n]|e] eqn:E; simpl;
      [|assumption].
    apply update_review_Ok in E
      as [[-> _] | (pre & old & post & new & _ & _ & _ & _ & _ & E & _)];
      [assumption|].
    apply update_movie_rating_tables in E as (_ & _ & ->). assumption.
  - unfold transact.
    destruct (delete_reviews ses where_ d) as [[d' n]|e] eqn:E; simpl;
      [|assumption].
    apply delete_reviews_Ok in E as [E _].
    apply after_delete_rows_tables in E as (_ & _ & ->). assumption.
  - unfold transact, returning_unit.
    destruct (insert_into_watchlist ses id u m d) as [d'|e] eqn:E; simpl;
      [|assumption].
    apply insert_into_watchlist_Ok in E as [Hp ->]. simpl.
    now apply NoDup_key_snoc.
  - now apply NoDup_key_filter.
Qed.

Lemma requests_reviews h d :
  unique_pairs (reviews d) -> unique_pairs (reviews (requests h d)).
Proof.
  revert d. induction h as [|[ses st] h IH]; simpl; intros d Hu;
    [assumption|].
  apply IH. now apply request_reviews.
Qed.

Lemma requests_watchlist h d :
  unique_entries (watchlist d) -> unique_entries (watchlist (requests h d)).
Proof.
  revert d. induction h as [|[ses st] h IH]; simpl; intros d Hu;
    [assumption|].
  apply IH. now apply request_watchlist.
Qed.

(** C4: (1) whatever requests are served, a [reviews] table with at most
    one row per (user, movie) pair keeps at most one row per pair; (2) a
    second submission by user [u] for a movie [m] they have a review [R] of
    raises [unique_violation] (DuplicateEntry), and [handleSubmit] ends on
    the database it started from, reviews and aggregates alike, with its
    error toast. *)
Theorem one_review_per_user_and_movie :
  (forall h d,
      unique_pairs (reviews d) ->
      unique_pairs (reviews (requests h d)) /\
      forall u m, (length (reviews_by u m (reviews (requests h d))) <= 1)%nat) /\
  (forall ses u m rating txt id d R,
      auth_uid ses = Some u -> 1 <= rating <= 5 ->
      In R (reviews d) -> Review.user_id R = u -> Review.movie_id R = m ->
      insert_review ses id u m rating txt d = Err unique_violation /\
      handleSubmit ses m rating txt id d = (d, toast_error unique_violation)).
Proof.
  split.
  - intros h d Hu. pose proof (requests_reviews h d Hu) as Hh.
    split; [exact Hh|]. intros u m. unfold reviews_by.
    apply (NoDup_key_at_most_one review_pair _ (u, m)); [|exact Hh].
    intros r Hr. apply andb_prop in Hr as [H1 H2].
    apply Z.eqb_eq in H1. apply Z.eqb_eq in H2.
    unfold review_pair. congruence.
  - intros ses u m rating txt id d R Hses Hr HR HRu HRm.
    assert (E : insert_review ses id u m rating txt d = Err unique_violation).
    { unfold insert_review, insert_into_reviews.
      rewrite (int4in_stars rating) by lia. cbn [bind].
      unfold insert_checks, Policy.reviews_insert. simpl Review.user_id.
      rewrite (auth_uid_is_self _ _ Hses), orb_true_r.
      rewrite rating_check_true by exact Hr. simpl.
      destruct (existsb _ (reviews d)); [reflexivity|]. simpl.
      replace (existsb _ (reviews d)) with true; [reflexivity|].
      symmetry. apply existsb_exists. exists R. split; [assumption|].
      apply same_pair_true. unfold review_pair. simpl. congruence. }
    split; [exact E|].
    unfold handleSubmit. rewrite Hses.
    destruct (Z.eqb_spec rating 0) as [|_]; [lia|].
    erewrite transact_Err; [reflexivity|].
    unfold returning_unit. now rewrite E.
Qed.

Lemma one_review_per_user_and_movie_witness :
  unique_pairs (reviews Scenario.start) /\
  (length (reviews_by Scenario.U1 Scenario.X
             (reviews (requests Scenario.two_submissions Scenario.start)))
   <= 1)%nat /\
  1 <= 5 <= 5 /\
  handleSubmit (Scenario.exempt Scenario.U1 2) Scenario.X 5 None Scenario.R2
    Scenario.one_review
  = (Scenario.one_review, toast_error unique_violation).
Proof.
  assert (Hs : unique_pairs (reviews Scenario.start)) by constructor.
  split; [exact Hs|]. split; [|split; [lia|]].
  - exact (proj2 (proj1 one_review_per_user_and_movie _ Scenario.start Hs)
             Scenario.U1 Scenario.X).
  - exact (proj2 (proj2 one_review_per_user_and_movie
             (Scenario.exempt Scenario.U1 2) Scenario.U1 Scenario.X 5 None
             Scenario.R2 Scenario.one_review
             (Review.mk Scenario.R1 Scenario.U1 Scenario.X 4 None 1 1)
             eq_refl ltac:(lia) (or_introl eq_refl) eq_refl eq_refl)).
Defined.

(** ** The watchlist *)

Lemma insert_into_watchlist_tables ses id u m d d' :
  insert_into_watchlist ses id u m d = Ok d' ->
  reviews d' = reviews d /\ movies d' = movies d.
Proof. intros H. apply insert_into_watchlist_Ok in H as [_ ->]. auto. Qed.

Lemma insert_into_watchlist_duplicate ses id u m d W :
  In W (watchlist d) -> Watch.user_id W = u -> Watch.movie_id W = m ->
  insert_into_watchlist ses id u m d = Err unique_violation \/
  insert_into_watchlist ses id u m d = Err insufficient_privilege.
Proof.
  intros HW Hu Hm. unfold insert_into_watchlist.
  destruct (Policy.watchlist_insert ses _); [left|now right]. simpl.
  destruct (existsb _ (watchlist d)); [reflexivity|]. simpl.
  replace (existsb _ (watchlist d)) with true; [reflexivity|].
  symmetry. apply existsb_exists. exists W. split; [assumption|].
  apply same_entry_true. unfold watch_pair. simpl. congruence.
Qed.

(** C9: (1) whatever requests are served, a watchlist with at most one
    entry per (user, movie) pair keeps at most one entry per pair; (2)
    adding a pair that has an entry [W] raises ([unique_violation] for the
    signed-in user of the entry) and the watchlist is as before, also when
    [handleWatchlistToggle] sends the insert on a stale [isInWatchlist];
    (3) no statement on the watchlist, and no toggle, changes a row of
    [reviews] or of [movies]. *)
Theorem watchlist_entries_unique_and_apart :
  (forall h d,
      unique_entries (watchlist d) ->
      unique_entries (watchlist (requests h d)) /\
      forall u m,
        (length (entries_by u m (watchlist (requests h d))) <= 1)%nat) /\
  (forall ses id u m d W,
      In W (watchlist d) -> Watch.user_id W = u -> Watch.movie_id W = m ->
      (exists e, insert_into_watchlist ses id u m d = Err e) /\
      (auth_uid ses = Some u ->
       insert_into_watchlist ses id u m d = Err unique_violation) /\
      request ses (INSERT_watchlist id u m) d = d /\
      (auth_uid ses = Some u ->
       handleWatchlistToggle ses (Some m) false id d = (d, true, toast_success))) /\
  (forall ses d,
      (forall id u m,
          reviews (request ses (INSERT_watchlist id u m) d) = reviews d /\
          movies (request ses (INSERT_watchlist id u m) d) = movies d) /\
      (forall where_,
          reviews (request ses (DELETE_watchlist where_) d) = reviews d /\
          movies (request ses (DELETE_watchlist where_) d) = movies d) /\
      (forall id flag new_id,
          reviews (fst (fst (handleWatchlistToggle ses id flag new_id d)))
          = reviews d /\
          movies (fst (fst (handleWatchlistToggle ses id flag new_id d)))
          = movies d)).
Proof.
  assert (Hins : forall ses id u m d,
             reviews (request ses (INSERT_watchlist id u m) d) = reviews d /\
             movies (request ses (INSERT_watchlist id u m) d) = movies d).
  { intros ses id u m d. simpl. unfold transact, returning_unit.
    destruct (insert_into_watchlist ses id u m d) as [d'|e] eqn:E; simpl;
      [|auto].
    now apply insert_into_watchlist_tables in E. }
  split; [|split].
  - intros h d Hu. pose proof (requests_watchlist h d Hu) as Hh.
    split; [exact Hh|]. intros u m. unfold entries_by.
    apply (NoDup_key_at_most_one watch_pair _ (u, m)); [|exact Hh].
    intros w Hw. apply andb_prop in Hw as [H1 H2].
    apply Z.eqb_eq in H1. apply Z.eqb_eq in H2.
    unfold watch_pair. congruence.
  - intros ses id u m d W HW Hu Hm.
    pose proof (insert_into_watchlist_duplicate ses id u m d W HW Hu Hm) as Hd.
    assert (Hreq : request ses (INSERT_watchlist id u m) d = d).
    { simpl. unfold transact, returning_unit.
      destruct Hd as [-> | ->]; reflexivity. }
    assert (Hown : auth_uid ses = Some u ->
                   insert_into_watchlist ses id u m d = Err unique_violation).
    { intros Hses. destruct Hd as [Hd|Hd]; [exact Hd|].
      unfold insert_into_watchlist, Policy.watchlist_insert in Hd.
      simpl Watch.user_id in Hd.
      rewrite (auth_uid_is_self _ _ Hses), orb_true_r in Hd. simpl in Hd.
      destruct (existsb _ (watchlist d)); simpl in Hd; [discriminate|].
      destruct (existsb _ (watchlist d)); simpl in Hd; [discriminate|].
      destruct (has_user u d); simpl in Hd; [|discriminate].
      destruct (has_movie m d); simpl in Hd; discriminate. }
    split; [destruct Hd; eauto|]. split; [exact Hown|].
    split; [exact Hreq|].
    intros Hses. unfold handleWatchlistToggle. rewrite Hses.
    simpl in Hreq. now rewrite Hreq.
  - intros ses d. split; [intros id u m; apply Hins|]. split.
    + intros where_. simpl. auto.
    + intros id flag new_id. unfold handleWatchlistToggle.
      destruct (auth_uid ses) as [user|]; [|auto].
      destruct id as [id|]; [|auto].
      destruct flag; [simpl; auto|].
      apply (Hins ses new_id user id d).
Qed.

Lemma watchlist_entries_unique_and_apart_witness :
  unique_entries (watchlist Scenario.watching) /\
  (length (entries_by Scenario.U1 Scenario.X
             (watchlist (requests Scenario.two_additions Scenario.watching)))
   <= 1)%nat /\
  insert_into_watchlist (Scenario.client Scenario.U1 2) 22 Scenario.U1
    Scenario.X Scenario.watching = Err unique_violation /\
  handleWatchlistToggle (Scenario.client Scenario.U1 2) (Some Scenario.X)
    false 22 Scenario.watching
  = (Scenario.watching, true, toast_success).
Proof.
  assert (Hw : unique_entries (watchlist Scenario.watching)).
  { unfold unique_entries. simpl. constructor; [intros []|constructor]. }
  pose proof (proj1 (proj2 watchlist_entries_unique_and_apart)
                (Scenario.client Scenario.U1 2) 22 Scenario.U1 Scenario.X
                Scenario.watching (Watch.mk 21 Scenario.U1 Scenario.X 1)
                (or_introl eq_refl) eq_refl eq_refl) as (_ & Hdup & _ & Htog).
  split; [exact Hw|]. split; [|split].
  - exact (proj2 (proj1 watchlist_entries_unique_and_apart _
                    Scenario.watching Hw) Scenario.U1 Scenario.X).
  - exact (Hdup eq_refl).
  - exact (Htog eq_refl).
Defined.

(** ** What holds on a role exempt from row-level security *)

Lemma ratings_checked_nonneg rs :
  ratings_checked rs -> Forall (fun r => 0 <= Review.rating r) rs.
Proof.
  apply Forall_impl. intros r H. unfold rating_check in H.
  apply andb_prop in H as [H _]. apply Z.leb_le in H. lia.
Qed.

(** After a successful run on an exempt role, a row of [movies] is either
    a row of the target, and consistent, or a row that was there before. *)
Lemma update_movie_rating_rows ses NEW OLD d d' target m :
  bypassrls ses = true ->
  target_movie_id NEW OLD = Some target ->
  ratings_checked (reviews d) ->
  update_movie_rating ses NEW OLD d = Ok d' ->
  In m (movies d') ->
  (Movie.id m = target /\ row_consistent (reviews d') m) \/
  (Movie.id m <> target /\ In m (movies d)).
Proof.
  intros Hb Ht Hr H Hin.
  destruct (Z.eq_dec (Movie.id m) target) as [E|E].
  - left. split; [exact E|].
    unfold row_consistent. rewrite E.
    apply (update_movie_rating_exempt ses NEW OLD d d' target m); auto.
    now apply ratings_checked_nonneg.
  - right. split; [exact E|].
    apply update_movie_rating_Ok in H
      as [-> | (t & avg & cnt & Ht' & _ & _ & _ & ->)]; [assumption|].
    simpl in Hin. apply in_map_iff in Hin as (m0 & Hm0 & Hin).
    assert (t = target) by congruence. subst t.
    destruct (Z.eqb_spec (Movie.id m0) target) as [E0|E0].
    + subst m. simpl in E. contradiction.
    + now subst m0.
Qed.

Lemma row_consistent_ext rs rs' m :
  filter (fun r => Review.movie_id r =? Movie.id m) rs'
  = filter (fun r => Review.movie_id r =? Movie.id m) rs ->
  row_consistent rs m -> row_consistent rs' m.
Proof. unfold row_consistent. now intros ->. Qed.

Lemma insert_review_consistent ses id u M r txt d d' :
  bypassrls ses = true ->
  insert_review ses id u M r txt d = Ok d' ->
  ratings_checked (reviews d) -> consistent d ->
  ratings_checked (reviews d') /\ consistent d'.
Proof.
  intros Hb H Hr Hc. apply insert_review_Ok in H as (z & _ & Hchk & H).
  apply insert_checks_Ok in Hchk as (Hrat & _ & _).
  set (new := Review.mk id u M z txt (now ses) (now ses)) in *.
  assert (Hr' : ratings_checked (reviews d ++ [new])).
  { apply Forall_app. split; [assumption|]. constructor; [assumption|constructor]. }
  pose proof (update_movie_rating_tables _ _ _ _ _ H) as (_ & Hrs & _).
  simpl in Hrs. split; [now rewrite Hrs|].
  apply Forall_forall. intros m Hm.
  destruct (update_movie_rating_rows ses (Some new) None
              (set_reviews (reviews d ++ [new]) d) d' M m Hb eq_refl Hr' H Hm)
    as [[_ Hrow] | [Hne Hold]]; [assumption|].
  unfold consistent in Hc. rewrite Forall_forall in Hc.
  apply (row_consistent_ext (reviews d)); [|now apply Hc].
  rewrite Hrs, filter_app. simpl.
  destruct (Z.eqb_spec M (Movie.id m)) as [E|_]; [congruence|].
  apply app_nil_r.
Qed.

Lemma update_review_consistent ses s rid d d' n :
  bypassrls ses = true ->
  set_movie_id s = None ->
  update_review ses s rid d = Ok (d', n) ->
  ratings_checked (reviews d) -> consistent d ->
  ratings_checked (reviews d') /\ consistent d'.
Proof.
  intros Hb Hkeep H Hr Hc. apply update_review_Ok in H
    as [[-> _] | (pre & old & post & assigned
                  & Hl & _ & _ & Ha & Hchk & H & _)]; [auto|].
  set (new := update_reviews_updated_at ses assigned) in *.
  apply update_checks_Ok in Hchk as (Hrat & _ & _).
  apply apply_set_Ok in Ha as (_ & _ & Hmv & _).
  rewrite Hkeep in Hmv. simpl in Hmv.
  assert (Hr' : ratings_checked (pre ++ post ++ [new])).
  { unfold ratings_checked in *. rewrite Hl in Hr.
    apply Forall_app in Hr as [Hpre Hpost].
    inversion Hpost; subst.
    apply Forall_app. split; [assumption|].
    apply Forall_app. split; [assumption|]. now repeat constructor. }
  pose proof (update_movie_rating_tables _ _ _ _ _ H) as (_ & Hrs & _).
  simpl in Hrs. split; [now rewrite Hrs|].
  apply Forall_forall. intros m Hm.
  destruct (update_movie_rating_rows ses (Some new) (Some old)
              (set_reviews (pre ++ post ++ [new]) d) d'
              (Review.movie_id old) m Hb
              (f_equal Some Hmv) Hr' H Hm)
    as [[_ Hrow] | [Hne Hold]]; [assumption|].
  unfold consistent in Hc. rewrite Forall_forall in Hc.
  apply (row_consistent_ext (reviews d)); [|now apply Hc].
  rewrite Hrs, Hl, !filter_app. simpl. rewrite Hmv.
  destruct (Z.eqb_spec (Review.movie_id old) (Movie.id m)) as [E|_];
    [congruence | now rewrite app_nil_r].
Qed.

Lemma after_delete_rows_consistent ses olds d d' :
  bypassrls ses = true ->
  after_delete_rows update_movie_rating ses olds d = Ok d' ->
  ratings_checked (reviews d) ->
  forall m, In m (movies d') ->
    row_consistent (reviews d) m \/
    (Forall (fun old => Review.movie_id old <> Movie.id m) olds /\
     In m (movies d)).
Proof.
  intros Hb. revert d. induction olds as [|old olds IH]; simpl;
    intros d H Hr m Hm.
  - injection H as <-. right. split; [constructor | assumption].
  - apply bind_Ok in H as (d1 & H1 & H).
    pose proof (update_movie_rating_tables _ _ _ _ _ H1) as (_ & Hrs & _).
    rewrite <- Hrs in Hr |- *.
    destruct (IH d1 H Hr m Hm) as [Hrow | [Hne Hin]]; [now left|].
    rewrite Hrs in Hr.
    destruct (update_movie_rating_rows ses None (Some old) d d1
                (Review.movie_id old) m Hb eq_refl Hr H1 Hin)
      as [[_ Hrow] | [Hne' Hold]]; [now left|].
    right. split; [|assumption]. constructor; [congruence | assumption].
Qed.

Lemma filter_rest_same {A} (hit p : A -> bool) l :
  (forall x, In x (filter hit l) -> p x = false) ->
  filter p (filter (fun x => negb (hit x)) l) = filter p l.
Proof.
  induction l as [|a l IH]; simpl; intros H; [reflexivity|].
  destruct (hit a) eqn:E; simpl.
  - rewrite (H a) by now left.
    apply IH. intros x Hx. apply H. now right.
  - now rewrite IH.
Qed.

Lemma delete_reviews_consistent ses where_ d d' n :
  bypassrls ses = true ->
  delete_reviews ses where_ d = Ok (d', n) ->
  ratings_checked (reviews d) -> consistent d ->
  ratings_checked (reviews d') /\ consistent d'.
Proof.
  intros Hb H Hr Hc. apply delete_reviews_Ok in H as [H _].
  set (hit := fun r => where_ r && Policy.reviews_delete ses r) in *.
  set (rest := filter (fun r => negb (hit r)) (reviews d)) in *.
  assert (Hr' : ratings_checked rest).
  { apply Forall_forall. intros r Hin. apply filter_In in Hin as [Hin _].
    unfold ratings_checked in Hr. rewrite Forall_forall in Hr. auto. }
  pose proof (after_delete_rows_tables _ _ _ _ H) as (_ & Hrs & _).
  simpl in Hrs. split; [now rewrite Hrs|].
  apply Forall_forall. intros m Hm. rewrite Hrs.
  destruct (after_delete_rows_consistent ses _ _ d' Hb H Hr' m Hm)
    as [Hrow | [Hne Hin]]; [assumption|].
  unfold consistent in Hc. rewrite Forall_forall in Hc.
  apply (row_consistent_ext (reviews d)); [|now apply Hc].
  rewrite Forall_forall in Hne.
  apply filter_rest_same. intros x Hx. apply Z.eqb_neq. now apply Hne.
Qed.

(** On a role exempt from row-level security the aggregate is kept by
    every insert, by every delete, and by every update that leaves
    [movie_id] alone: the arithmetic and the targets of the trigger are the
    specified ones for these statements. *)
Lemma aggregate_kept_on_exempt_role ses d :
  bypassrls ses = true ->
  ratings_checked (reviews d) -> consistent d ->
  (forall id u M r txt,
      consistent (request ses (INSERT_reviews id u M r txt) d)) /\
  (forall s rid,
      set_movie_id s = None ->
      consistent (request ses (UPDATE_reviews s rid) d)) /\
  (forall where_, consistent (request ses (DELETE_reviews where_) d)).
Proof.
  intros Hb Hr Hc. split; [|split]; intros; simpl; unfold transact.
  - unfold returning_unit.
    destruct (insert_review ses id u M r txt d) as [d'|e] eqn:E; simpl;
      [|assumption].
    eapply insert_review_consistent; eassumption.
  - destruct (update_review ses s rid d) as [[d' n]|e] eqn:E; simpl;
      [|assumption].
    eapply update_review_consistent; eassumption.
  - destruct (delete_reviews ses where_ d) as [[d' n]|e] eqn:E; simpl;
      [|assumption].
    eapply delete_reviews_consistent; eassumption.
Qed.

(** So, on such a role, the rows of a movie whose last review a delete has
    removed hold (0.00, 0). *)
Lemma delete_last_review_on_exempt_role ses where_ d m :
  bypassrls ses = true ->
  ratings_checked (reviews d) -> consistent d ->
  let d' := request ses (DELETE_reviews where_) d in
  In m (movies d') -> reviews_of (Movie.id m) d' = [] ->
  Movie.average_rating m = 0 /\ Movie.total_reviews m = 0.
Proof.
  intros Hb Hr Hc d' Hm Hnone.
  pose proof (proj2 (proj2 (aggregate_kept_on_exempt_role ses d Hb Hr Hc))
                where_) as Hc'.
  fold d' in Hc'. unfold consistent in Hc'. rewrite Forall_forall in Hc'.
  destruct (Hc' m Hm) as [Hcnt Havg].
  unfold reviews_of in Hnone. rewrite Hnone in Hcnt, Havg.
  split; assumption.
Qed.

(** ** What happens on a role subject to row-level security *)

Lemma after_delete_rows_under_rls ses olds d :
  bypassrls ses = false ->
  after_delete_rows update_movie_rating ses olds d = Ok d.
Proof.
  intros Hb. induction olds as [|old olds IH]; simpl; [reflexivity|].
  rewrite update_movie_rating_under_rls by assumption. exact IH.
Qed.

(** No request of such a role writes a row of [movies]: whatever reviews
    it inserts, updates or deletes, every aggregate stays as it is. *)
Lemma movies_fixed_under_rls ses st d :
  bypassrls ses = false -> movies (request ses st d) = movies d.
Proof.
  intros Hb. destruct st as [id u m r txt|s rid|where_|id u m|where_]; simpl.
  - unfold transact, returning_unit.
    destruct (insert_review ses id u m r txt d) as [d'|e] eqn:E; simpl;
      [|reflexivity].
    apply insert_review_Ok in E as (z & _ & _ & E).
    rewrite update_movie_rating_under_rls in E by assumption.
    now injection E as <-.
  - unfold transact.
    destruct (update_review ses s rid d) as [[d' n]|e] eqn:E; simpl;
      [|reflexivity].
    apply update_review_Ok in E
      as [[-> _] | (pre & old & post & new & _ & _ & _ & _ & _ & E & _)];
      [reflexivity|].
    rewrite update_movie_rating_under_rls in E by assumption.
    now injection E as <-.
  - unfold transact.
    destruct (delete_reviews ses where_ d) as [[d' n]|e] eqn:E; simpl;
      [|reflexivity].
    apply delete_reviews_Ok in E as [E _].
    rewrite after_delete_rows_under_rls in E by assumption.
    now injection E as <-.
  - unfold transact, returning_unit.
    destruct (insert_into_watchlist ses id u m d) as [d'|e] eqn:E; simpl;
      [|reflexivity].
    now apply insert_into_watchlist_tables in E.
  - reflexivity.
Qed.

(** * Further properties of the schema *)

(** ** What each statement does to the tables *)

Lemma insert_review_rows ses id u m r txt d d' :
  insert_review ses id u m r txt d = Ok d' ->
  exists z,
    r = integer_literal z /\
    let new := Review.mk id u m z txt (now ses) (now ses) in
    insert_checks ses new d = Ok tt /\
    reviews d' = reviews d ++ [new] /\
    users d' = users d /\ watchlist d' = watchlist d.
Proof.
  intros H. apply insert_review_Ok in H as (z & Hz & Hc & H).
  apply update_movie_rating_tables in H as (Hu & Hr & Hw).
  apply int4in_Ok in Hz. exists z. auto.
Qed.

Lemma update_review_rows ses s rid d d' n :
  update_review ses s rid d = Ok (d', n) ->
  d' = d \/
  exists pre old post assigned,
    let new := update_reviews_updated_at ses assigned in
    reviews d = pre ++ old :: post /\
    Review.id old = rid /\
    Policy.reviews_update ses old = true /\
    apply_set s old = Ok assigned /\
    update_checks ses old new (pre ++ post) d = Ok tt /\
    reviews d' = pre ++ post ++ [new] /\
    users d' = users d /\ watchlist d' = watchlist d.
Proof.
  intros H. apply update_review_Ok in H
    as [[-> _] | (pre & old & post & assigned
                  & Hl & Hid & Hpol & Ha & Hc & H & _)];
    [now left|].
  right. exists pre, old, post, assigned.
  apply update_movie_rating_tables in H as (Hu & Hr & Hw). simpl in *. auto 9.
Qed.

Lemma delete_reviews_rows ses where_ d d' n :
  delete_reviews ses where_ d = Ok (d', n) ->
  reviews d'
  = filter (fun r => negb (where_ r && Policy.reviews_delete ses r)) (reviews d)
  /\ users d' = users d /\ watchlist d' = watchlist d.
Proof.
  intros H. apply delete_reviews_Ok in H as [H _].
  apply after_delete_rows_tables in H as (Hu & Hr & Hw). auto.
Qed.





(** One request, by cases: the statement raised or found nothing to do,
    or it is one of the five with its result at hand. *)
Ltac by_statement ses st d E :=
  destruct st as [id u m r txt|s rid|where_|id u m|where_]; simpl;
  unfold transact, returning_unit;
  [ destruct (insert_review ses id u m r txt d) as [d'|e] eqn:E
  | destruct (update_review ses s rid d) as [[d' n]|e] eqn:E
  | destruct (delete_reviews ses where_ d) as [[d' n]|e] eqn:E
  | destruct (insert_into_watchlist ses id u m d) as [d'|e] eqn:E
  | ]; simpl.



(** ** Constraints kept by every request *)

Lemma request_ratings_checked ses st d :
  ratings_checked (reviews d) -> ratings_checked (reviews (request ses st d)).
Proof.
  intros Hr. by_statement ses st d E; try assumption.
  - apply insert_review_rows in E as (z & _ & Hc & -> & _).
    apply insert_checks_Ok in Hc as (Hrat & _).
    apply Forall_app. split; [assumption|]. now repeat constructor.
  - apply update_review_rows in E
      as [-> | (pre & old & post & new & Hl & _ & _ & _ & Hc & -> & _)];
      [assumption|].
    apply update_checks_Ok in Hc as (Hrat & _).
    unfold ratings_checked in *. rewrite Hl in Hr.
    apply Forall_app in Hr as [Hpre Hpost]. inversion Hpost; subst.
    apply Forall_app. split; [assumption|].
    apply Forall_app. split; [assumption|]. now repeat constructor.
  - apply delete_reviews_rows in E as (-> & _).
    apply Forall_forall. intros x Hx. apply filter_In in Hx as [Hx _].
    unfold ratings_checked in Hr. rewrite Forall_forall in Hr. auto.
  - now apply insert_into_watchlist_Ok in E as [_ ->].
Qed.

Lemma request_unique_ids ses st d :
  unique_ids (reviews d) -> unique_ids (reviews (request ses st d)).
Proof.
  intros Hu. by_statement ses st d E; try assumption.
  - apply insert_review_rows in E as (z & _ & Hc & -> & _).
    apply insert_checks_Ok in Hc as (_ & Hid & _).
    now apply NoDup_key_snoc.
  - apply update_review_rows in E
      as [-> | (pre & old & post & new & Hl & _ & _ & _ & Hc & -> & _)];
      [assumption|].
    apply update_checks_Ok in Hc as (_ & Hid & _).
    unfold unique_ids in *. rewrite Hl in Hu.
    eapply NoDup_key_replace; eassumption.
  - apply delete_reviews_rows in E as (-> & _).
    now apply NoDup_key_filter.
  - now apply insert_into_watchlist_Ok in E as [_ ->].
Qed.



(** Every rating in [reviews] stays within 1..5 and every id stays unique,
    whatever requests are served on whatever sessions: the CHECK constraint
    and the primary key hold after each of them. *)
Theorem ratings_and_ids_stay_valid h d :
  ratings_checked (reviews d) -> unique_ids (reviews d) ->
  ratings_checked (reviews (requests h d)) /\
  unique_ids (reviews (requests h d)).
Proof.
  revert d. induction h as [|[ses st] h IH]; simpl; intros d Hr Hu; [auto|].
  apply IH; [now apply request_ratings_checked | now apply request_unique_ids].
Qed.

Lemma ratings_and_ids_stay_valid_witness :
  ratings_checked (reviews Scenario.start) /\
  unique_ids (reviews Scenario.start) /\
  map (fun r => (Review.id r, Review.rating r))
      (reviews (requests Scenario.renumbering Scenario.start))
  = [(12, 5); (13, 1)] /\
  ratings_checked (reviews (requests Scenario.renumbering Scenario.start)) /\
  unique_ids (reviews (requests Scenario.renumbering Scenario.start)).
Proof.
  assert (Hr : ratings_checked (reviews Scenario.start)) by constructor.
  assert (Hu : unique_ids (reviews Scenario.start)) by constructor.
  split; [exact Hr|]. split; [exact Hu|].
  split; [vm_compute; reflexivity|].
  exact (ratings_and_ids_stay_valid Scenario.renumbering Scenario.start
           Hr Hu).
Defined.



(** ** What row-level security lets a user reach *)

Lemma auth_uid_is_true ses u x :
  auth_uid ses = Some u -> auth_uid_is ses x = true -> x = u.
Proof.
  unfold auth_uid_is. intros -> H. apply Z.eqb_eq in H. congruence.
Qed.

Lemma owner_only ses u x :
  auth_uid ses = Some u -> bypassrls ses = false ->
  bypassrls ses || auth_uid_is ses x = true -> negb (x =? u) = false.
Proof.
  intros Hu Hb H. rewrite Hb in H. simpl in H.
  rewrite (auth_uid_is_true _ _ _ Hu H). now rewrite Z.eqb_refl.
Qed.

Lemma filter_app_one {A} (p : A -> bool) l x :
  p x = false -> filter p (l ++ [x]) = filter p l.
Proof. intros H. rewrite filter_app. simpl. rewrite H. apply app_nil_r. Qed.

Lemma filter_swap_middle {A} (p : A -> bool) pre old new post :
  p old = false -> p new = false ->
  filter p (pre ++ post ++ [new]) = filter p (pre ++ old :: post).
Proof.
  intros Ho Hn. rewrite !filter_app. simpl. rewrite Ho, Hn.
  now rewrite app_nil_r.
Qed.

Lemma request_leaves_others ses who st d :
  auth_uid ses = Some who -> bypassrls ses = false ->
  reviews_of_others who (request ses st d) = reviews_of_others who d /\
  entries_of_others who (request ses st d) = entries_of_others who d.
Proof.
  intros Hu Hb. unfold reviews_of_others, entries_of_others.
  by_statement ses st d E; try (split; reflexivity).
  - apply insert_review_rows in E as (z & _ & Hc & -> & _ & ->).
    split; [|reflexivity]. apply filter_app_one.
    unfold insert_checks in Hc. apply check_Ok in Hc as [Hpol _].
    exact (owner_only ses who _ Hu Hb Hpol).
  - apply update_review_rows in E
      as [-> | (pre & old & post & new
                & Hl & _ & Hpol & _ & Hc & -> & _ & ->)];
      [split; reflexivity|].
    split; [|reflexivity]. rewrite Hl. apply filter_swap_middle.
    + exact (owner_only ses who _ Hu Hb Hpol).
    + unfold update_checks in Hc. apply check_Ok in Hc as [Hnew _].
      exact (owner_only ses who _ Hu Hb Hnew).
  - apply delete_reviews_rows in E as (-> & _ & ->).
    split; [|reflexivity]. apply filter_rest_same.
    intros x Hx. apply filter_In in Hx as [_ Hx].
    apply andb_prop in Hx as [_ Hpol].
    exact (owner_only ses who _ Hu Hb Hpol).
  - assert (Hpol : Policy.watchlist_insert ses (Watch.mk id u m (now ses))
                   = true).
    { unfold insert_into_watchlist in E. now apply check_Ok in E as [Hpol _]. }
    apply insert_into_watchlist_Ok in E as [_ ->]. simpl.
    split; [reflexivity|]. apply filter_app_one.
    exact (owner_only ses who _ Hu Hb Hpol).
  - split; [reflexivity|]. apply filter_rest_same.
    intros x Hx. apply filter_In in Hx as [_ Hx].
    apply andb_prop in Hx as [_ Hpol].
    exact (owner_only ses who _ Hu Hb Hpol).
Qed.

(** A user on a role subject to row-level security cannot reach what is
    not theirs: whatever requests user [u] sends, the reviews and the
    watchlist entries of every other user are exactly as before, row for
    row. *)
Theorem other_users_rows_are_out_of_reach u h d :
  Forall (fun q => auth_uid (fst q) = Some u /\ bypassrls (fst q) = false) h ->
  reviews_of_others u (requests h d) = reviews_of_others u d /\
  entries_of_others u (requests h d) = entries_of_others u d.
Proof.
  revert d. induction h as [|[ses st] h IH]; simpl; intros d Hh; [auto|].
  inversion Hh as [|? ? [Hu Hb] Hh']; subst. simpl in *.
  destruct (IH (request ses st d) Hh') as [-> ->].
  now apply request_leaves_others.
Qed.

Lemma other_users_rows_are_out_of_reach_witness :
  Forall (fun q => auth_uid (fst q) = Some Scenario.U2 /\
                   bypassrls (fst q) = false) Scenario.meddling /\
  reviews_of_others Scenario.U2 (requests Scenario.meddling Scenario.watching)
  = reviews Scenario.watching /\
  entries_of_others Scenario.U2 (requests Scenario.meddling Scenario.watching)
  = watchlist Scenario.watching /\
  COUNT (reviews (requests Scenario.meddling Scenario.watching)) = 2.
Proof.
  assert (Hm : Forall (fun q => auth_uid (fst q) = Some Scenario.U2 /\
                                bypassrls (fst q) = false) Scenario.meddling)
    by (repeat constructor).
  split; [exact Hm|].
  destruct (other_users_rows_are_out_of_reach Scenario.U2 Scenario.meddling
              Scenario.watching Hm) as [Hr Hw].
  split; [rewrite Hr; reflexivity|].
  split; [rewrite Hw; reflexivity|].
  vm_compute. reflexivity.
Defined.

Lemma nobody_owns ses x :
  auth_uid ses = None -> bypassrls ses = false ->
  bypassrls ses || auth_uid_is ses x = false.
Proof. unfold auth_uid_is. now intros -> ->. Qed.

(** With nobody signed in, on a role subject to row-level security, no
    request changes anything: every insert is refused and every update or
    delete finds no row. *)
Theorem signed_out_requests_change_nothing h d :
  Forall (fun q => auth_uid (fst q) = None /\ bypassrls (fst q) = false) h ->
  requests h d = d.
Proof.
  revert d. induction h as [|[ses st] h IH]; simpl; intros d Hh;
    [reflexivity|].
  inversion Hh as [|? ? [Hu Hb] Hh']; subst. simpl in *.
  assert (E : request ses st d = d); [|rewrite E; now apply IH].
  destruct st as [id u m r txt|s rid|where_|id u m|where_]; cbn [request].
  - unfold transact, returning_unit, insert_review, insert_into_reviews.
    destruct (int4in r) as [z|raised]; cbn [bind]; [|reflexivity].
    unfold insert_checks, Policy.reviews_insert.
    now rewrite nobody_owns.
  - erewrite transact_Ok; [reflexivity|].
    unfold update_review, update_reviews, row_to_update.
    rewrite pick_none_of; [reflexivity|].
    apply Forall_forall. intros x _. unfold Policy.reviews_update.
    rewrite nobody_owns by assumption. apply andb_false_r.
  - erewrite transact_Ok; [reflexivity|].
    rewrite delete_reviews_no_row; [reflexivity|].
    apply Forall_forall. intros x _. unfold Policy.reviews_delete.
    rewrite nobody_owns by assumption. apply andb_false_r.
  - unfold transact, returning_unit, insert_into_watchlist,
      Policy.watchlist_insert.
    now rewrite nobody_owns.
  - unfold transact, delete_from_watchlist. cbn [fst].
    unfold set_watchlist. rewrite filter_all; [now destruct d|].
    apply Forall_forall. intros x _. unfold Policy.watchlist_delete.
    rewrite nobody_owns by assumption. now rewrite andb_false_r.
Qed.

Lemma signed_out_requests_change_nothing_witness :
  requests
    [(mksession None false 2, DELETE_reviews (fun _ => true));
     (mksession None false 3, INSERT_reviews 12 1 100 5 None);
     (mksession None false 4, DELETE_watchlist (fun _ => true))]
    Scenario.watching
  = Scenario.watching.
Proof.
  apply signed_out_requests_change_nothing. repeat constructor.
Defined.

(** ** The aggregate over histories *)

(** No history of requests sent on roles subject to row-level security
    writes a row of [movies]: [average_rating] and [total_reviews] of every
    movie are what they were, however many reviews came and went. *)
Theorem clients_never_move_an_aggregate h d :
  sent_by_clients h -> movies (requests h d) = movies d.
Proof.
  revert d. induction h as [|[ses st] h IH]; simpl; intros d Hh;
    [reflexivity|].
  inversion Hh as [|? ? Hb Hh']; subst. simpl in Hb.
  rewrite (IH _ Hh'). now apply movies_fixed_under_rls.
Qed.

Lemma clients_never_move_an_aggregate_witness :
  sent_by_clients Scenario.meddling /\
  COUNT (reviews_of Scenario.X (requests Scenario.meddling Scenario.watching))
  = 2 /\
  aggregate Scenario.X (requests Scenario.meddling Scenario.watching)
  = Some (400, 1).
Proof.
  assert (Hm : sent_by_clients Scenario.meddling) by (repeat constructor).
  split; [exact Hm|]. split; [vm_compute; reflexivity|].
  unfold aggregate, movie_row.
  rewrite (clients_never_move_an_aggregate Scenario.meddling
             Scenario.watching Hm).
  reflexivity.
Defined.

Lemma request_consistent_on_exempt_role ses st d :
  bypassrls ses = true -> keeps_movie_id st ->
  ratings_checked (reviews d) -> consistent d ->
  consistent (request ses st d).
Proof.
  intros Hb Hk Hr Hc.
  pose proof (aggregate_kept_on_exempt_role ses d Hb Hr Hc) as (Hi & Hu & Hd).
  destruct st as [id u m r txt|s rid|where_|id u m|where_].
  - apply Hi.
  - now apply Hu.
  - apply Hd.
  - simpl. unfold transact, returning_unit.
    destruct (insert_into_watchlist ses id u m d) as [d'|e] eqn:E; simpl;
      [|assumption].
    now apply insert_into_watchlist_Ok in E as [_ ->].
  - assumption.
Qed.

(** On roles exempt from row-level security, and as long as no update
    assigns [movie_id], the aggregates follow the reviews through any
    history: after the last request every row of [movies] holds the count
    of its reviews and their mean rounded to two decimals (0.00 and 0
    without reviews). *)
Theorem exempt_roles_keep_the_aggregate h d :
  sent_by_exempt_roles h ->
  ratings_checked (reviews d) -> consistent d ->
  consistent (requests h d).
Proof.
  revert d. induction h as [|[ses st] h IH]; simpl; intros d Hh Hr Hc;
    [assumption|].
  inversion Hh as [|? ? [Hb Hk] Hh']; subst. simpl in *.
  apply IH; [assumption | now apply request_ratings_checked |].
  now apply request_consistent_on_exempt_role.
Qed.

Lemma exempt_roles_keep_the_aggregate_witness :
  sent_by_exempt_roles Scenario.three_reviewers /\
  consistent Scenario.three_users /\
  consistent (requests Scenario.three_reviewers Scenario.three_users) /\
  aggregate Scenario.X (requests Scenario.three_reviewers Scenario.three_users)
  = Some (367, 3).
Proof.
  assert (Hh : sent_by_exempt_roles Scenario.three_reviewers)
    by (repeat constructor).
  assert (Hc : consistent Scenario.three_users)
    by (repeat constructor).
  split; [exact Hh|]. split; [exact Hc|]. split.
  - exact (exempt_roles_keep_the_aggregate Scenario.three_reviewers
             Scenario.three_users Hh (Forall_nil _) Hc).
  - vm_compute. reflexivity.
Defined.

(** ** The recomputation in range and without failure *)

Lemma rounded_mean_range xs :
  Forall (fun x => 1 <= x <= 5) xs -> xs <> [] ->
  100 <= rounded_mean xs <= 500.
Proof.
  intros Hx Hne. unfold rounded_mean.
  destruct xs as [|x xs']; [contradiction|].
  set (ys := x :: xs') in *.
  assert (Hn : 0 < COUNT ys) by (unfold COUNT, ys; simpl length; lia).
  assert (Hlo : COUNT ys <= sum ys).
  { clear Hn Hne. unfold COUNT. induction Hx; simpl length; simpl sum; [lia|].
    rewrite Nat2Z.inj_succ. lia. }
  assert (Hhi : sum ys <= 5 * COUNT ys).
  { apply sum_le_5. eapply Forall_impl; [|exact Hx]. simpl. intros; lia. }
  pose proof (div_round_bounds (100 * sum ys) (COUNT ys) ltac:(lia) Hn).
  nia.
Qed.

Lemma ratings_of_movie_in_range target d :
  ratings_checked (reviews d) ->
  Forall (fun x => 1 <= x <= 5) (map Review.rating (reviews_of target d)).
Proof.
  intros Hr. apply Forall_forall. intros x Hx.
  apply in_map_iff in Hx as (r & <- & Hx). apply filter_In in Hx as [Hx _].
  unfold ratings_checked in Hr. rewrite Forall_forall in Hr.
  specialize (Hr r Hx). unfold rating_check in Hr.
  apply andb_prop in Hr as [H1 H2].
  apply Z.leb_le in H1. apply Z.leb_le in H2. lia.
Qed.

(** What the trigger stores is in range: on a role exempt from row-level
    security, a successful run leaves each row of its target movie either
    with no review and 0.00, or with a positive count and an average
    between 1.00 and 5.00. *)
Theorem stored_aggregate_is_in_range ses NEW OLD d d' target m :
  bypassrls ses = true ->
  target_movie_id NEW OLD = Some target ->
  ratings_checked (reviews d) ->
  update_movie_rating ses NEW OLD d = Ok d' ->
  In m (movies d') -> Movie.id m = target ->
  (Movie.total_reviews m = 0 /\ Movie.average_rating m = 0) \/
  (0 < Movie.total_reviews m /\ 100 <= Movie.average_rating m <= 500).
Proof.
  intros Hb Ht Hr H Hm Hid.
  destruct (update_movie_rating_exempt ses NEW OLD d d' target m Hb Ht
              (ratings_checked_nonneg _ Hr) H Hm Hid) as [Hcnt Havg].
  pose proof (update_movie_rating_tables _ _ _ _ _ H) as (_ & Hrs & _).
  assert (Hin : Forall (fun x => 1 <= x <= 5)
                  (map Review.rating (reviews_of target d'))).
  { apply ratings_of_movie_in_range. now rewrite Hrs. }
  destruct (reviews_of target d') as [|r rs] eqn:E.
  - left. rewrite Hcnt, Havg. split; reflexivity.
  - right. rewrite Hcnt, Havg. split.
    + unfold COUNT. simpl length. lia.
    + apply rounded_mean_range; [exact Hin | discriminate].
Qed.

Lemma stored_aggregate_is_in_range_witness :
  exists d',
    update_movie_rating (Scenario.exempt Scenario.U1 2) None
      (Some (Review.mk Scenario.R2 Scenario.U2 Scenario.X 5 None 1 1))
      Scenario.one_review = Ok d' /\
    aggregate Scenario.X d' = Some (400, 1) /\
    ((1 = 0 /\ 400 = 0) \/ (0 < 1 /\ 100 <= 400 <= 500)).
Proof.
  eexists. split; [vm_compute; reflexivity|].
  split; [vm_compute; reflexivity|].
  exact (stored_aggregate_is_in_range (Scenario.exempt Scenario.U1 2) None
           (Some (Review.mk Scenario.R2 Scenario.U2 Scenario.X 5 None 1 1))
           Scenario.one_review _ Scenario.X
           (Movie.mk Scenario.X "X" 400 1 2)
           eq_refl eq_refl ltac:(repeat constructor) eq_refl
           (or_introl eq_refl) eq_refl).
Defined.

Lemma after_delete_rows_total ses olds d :
  ratings_checked (reviews d) -> COUNT (reviews d) <= 2 ^ 31 - 1 ->
  exists d', after_delete_rows update_movie_rating ses olds d = Ok d'.
Proof.
  revert d. induction olds as [|old olds IH]; simpl; intros d Hr Hc;
    [eauto|].
  destruct (update_movie_rating_total ses None (Some old) d Hr Hc)
    as [d1 H1].
  rewrite H1. simpl.
  pose proof (update_movie_rating_tables _ _ _ _ _ H1) as (_ & Hrs & _).
  apply IH; now rewrite Hrs.
Qed.

(** The recomputation does not make a valid statement fail.  While
    [reviews] holds ratings within 1..5 and fewer than 2^31 - 1 rows, an
    insert whose checks pass is carried out, an update of a visible row
    whose assigned rating converts and whose checks pass is carried out,
    and every delete is carried out. *)
Theorem valid_statements_are_carried_out ses d :
  ratings_checked (reviews d) -> COUNT (reviews d) < 2 ^ 31 - 1 ->
  (forall id u m r txt,
      insert_checks ses (Review.mk id u m r txt (now ses) (now ses)) d = Ok tt ->
      exists d', insert_review ses id u m r txt d = Ok d') /\
  (forall s rid pre old post assigned,
      row_to_update ses rid (reviews d) = Some (pre, old, post) ->
      apply_set s old = Ok assigned ->
      update_checks ses old (update_reviews_updated_at ses assigned)
        (pre ++ post) d = Ok tt ->
      exists d', update_review ses s rid d = Ok (d', 1%nat)) /\
  (forall where_, exists d' n, delete_reviews ses where_ d = Ok (d', n)).
Proof.
  intros Hr Hc. split; [|split].
  - intros id u m r txt Hk.
    pose proof (insert_checks_Ok _ _ _ Hk) as (Hrat & _).
    unfold insert_review, insert_into_reviews.
    rewrite int4in_stars.
    2:{ unfold rating_check in Hrat. simpl in Hrat.
        apply andb_prop in Hrat as [H1 H2].
        apply Z.leb_le in H1. apply Z.leb_le in H2. lia. }
    cbn [bind]. rewrite Hk. cbn [bind].
    apply update_movie_rating_total; simpl.
    + apply Forall_app. split; [assumption|]. now repeat constructor.
    + unfold COUNT in *. rewrite length_app. simpl length. lia.
  - intros s rid pre old post assigned Hp Ha Hk.
    unfold update_review, update_reviews. rewrite Hp, Ha. cbn [bind].
    rewrite Hk. cbn [bind].
    apply pick_Some in Hp as (Hl & _ & _).
    destruct (update_movie_rating_total ses
                (Some (update_reviews_updated_at ses assigned))
                (Some old)
                (set_reviews
                   (pre ++ post ++ [update_reviews_updated_at ses assigned])
                   d))
      as [d' Hd'].
    + simpl. unfold ratings_checked in *. rewrite Hl in Hr.
      apply Forall_app in Hr as [Hpre Hpost]. inversion Hpost; subst.
      apply update_checks_Ok in Hk as (Hrat & _).
      apply Forall_app. split; [assumption|].
      apply Forall_app. split; [assumption|]. now repeat constructor.
    + simpl. unfold COUNT in *. rewrite Hl in Hc.
      rewrite !length_app in *. simpl length in *. lia.
    + rewrite Hd'. simpl. eauto.
  - intros where_. unfold delete_reviews, delete_from_reviews.
    destruct (after_delete_rows_total ses
                (filter (fun r => where_ r && Policy.reviews_delete ses r)
                        (reviews d))
                (set_reviews
                   (filter (fun r => negb (where_ r
                                           && Policy.reviews_delete ses r))
                           (reviews d)) d))
      as [d' Hd'].
    + simpl. apply Forall_forall. intros x Hx.
      apply filter_In in Hx as [Hx _].
      unfold ratings_checked in Hr. rewrite Forall_forall in Hr. auto.
    + simpl. unfold COUNT in *.
      pose proof (filter_length_le
                    (fun r => negb (where_ r && Policy.reviews_delete ses r))
                    (reviews d)). lia.
    + rewrite Hd'. simpl. eauto.
Qed.

Lemma valid_statements_are_carried_out_witness :
  ratings_checked (reviews Scenario.one_review) /\
  COUNT (reviews Scenario.one_review) < 2 ^ 31 - 1 /\
  (exists d', insert_review (Scenario.exempt Scenario.U2 2) Scenario.R2
                Scenario.U2 Scenario.X 5 None Scenario.one_review = Ok d') /\
  (exists d', update_review (Scenario.exempt Scenario.U1 2)
                (Scenario.set_rating_to 2) Scenario.R1 Scenario.one_review
              = Ok (d', 1%nat)).
Proof.
  assert (Hr : ratings_checked (reviews Scenario.one_review))
    by (repeat constructor).
  assert (Hc : COUNT (reviews Scenario.one_review) < 2 ^ 31 - 1)
    by (vm_compute; reflexivity).
  split; [exact Hr|]. split; [exact Hc|]. split.
  - exact (proj1 (valid_statements_are_carried_out
                    (Scenario.exempt Scenario.U2 2) Scenario.one_review Hr Hc)
             Scenario.R2 Scenario.U2 Scenario.X 5 None eq_refl).
  - exact (proj1 (proj2 (valid_statements_are_carried_out
                           (Scenario.exempt Scenario.U1 2) Scenario.one_review
                           Hr Hc))
             (Scenario.set_rating_to 2) Scenario.R1 []
             (Review.mk Scenario.R1 Scenario.U1 Scenario.X 4 None 1 1) []
             (Review.mk Scenario.R1 Scenario.U1 Scenario.X 2 None 1 1)
             eq_refl eq_refl eq_refl).
Defined.

(** ** Reading back what a statement wrote *)

Lemma reviews_by_none u m rs :
  ~ In (u, m) (map review_pair rs) -> reviews_by u m rs = [].
Proof.
  intros H. unfold reviews_by.
  destruct (filter _ rs) as [|r l] eqn:E; [reflexivity|]. exfalso.
  assert (Hr : In r (filter (fun r => (Review.user_id r =? u)
                                      && (Review.movie_id r =? m)) rs))
    by (rewrite E; now left).
  apply filter_In in Hr as [Hr Hp]. apply andb_prop in Hp as [H1 H2].
  apply Z.eqb_eq in H1. apply Z.eqb_eq in H2.
  apply H. apply in_map_iff. exists r. split; [|assumption].
  unfold review_pair. congruence.
Qed.

(** After a successful insert the row is there, with the columns that were
    sent and both timestamps at [now()], and it is the only review of that
    user for that movie. *)
Theorem inserted_review_is_read_back ses id u m (r : Z) txt d d' :
  insert_review ses id u m r txt d = Ok d' ->
  reviews_by u m (reviews d') = [Review.mk id u m r txt (now ses) (now ses)] /\
  COUNT (reviews_of m d') = COUNT (reviews_of m d) + 1.
Proof.
  intros H. apply insert_review_rows in H as (z & [= <-] & Hc & Hrs & _).
  apply insert_checks_Ok in Hc as (_ & _ & Hp). split.
  - rewrite Hrs. unfold reviews_by. rewrite filter_app.
    fold (reviews_by u m (reviews d)).
    rewrite reviews_by_none by exact Hp. simpl. now rewrite !Z.eqb_refl.
  - unfold reviews_of, COUNT. rewrite Hrs, filter_app. simpl.
    rewrite Z.eqb_refl, length_app. simpl length. lia.
Qed.

Lemma inserted_review_is_read_back_witness :
  exists d',
    insert_review (Scenario.client Scenario.U2 2) Scenario.R2 Scenario.U2
      Scenario.X 5 (Some "fine"%string) Scenario.one_review = Ok d' /\
    reviews_by Scenario.U2 Scenario.X (reviews d')
    = [Review.mk Scenario.R2 Scenario.U2 Scenario.X 5 (Some "fine"%string) 2 2]
    /\ COUNT (reviews_of Scenario.X d') = 2.
Proof.
  eexists. split; [vm_compute; reflexivity|].
  destruct (inserted_review_is_read_back (Scenario.client Scenario.U2 2)
              Scenario.R2 Scenario.U2 Scenario.X 5 (Some "fine"%string)
              Scenario.one_review _ eq_refl) as [Hby Hcnt].
  split; [exact Hby | exact Hcnt].
Defined.

(** An update reaches at most one row.  Either it finds no row and
    nothing changes, or one row with the given id, which the session may
    update, is replaced by its new version while every other row is kept.
    The new version carries [now()] in [updated_at] whatever the SET clause
    assigns to that column, its rating is within 1..5, and it passes the
    UPDATE policy again: on a role subject to row-level security it still
    belongs to the signed-in user. *)
Theorem update_reaches_one_row ses s rid d d' n :
  update_review ses s rid d = Ok (d', n) ->
  (n = 0%nat /\ d' = d) \/
  (n = 1%nat /\
   exists old new rest,
     Permutation (reviews d) (old :: rest) /\
     Permutation (reviews d') (new :: rest) /\
     Review.id old = rid /\
     Policy.reviews_update ses old = true /\
     Policy.reviews_update ses new = true /\
     rating_check new = true /\
     Review.updated_at new = now ses /\
     (bypassrls ses = false ->
      auth_uid ses = Some (Review.user_id old) /\
      Review.user_id new = Review.user_id old)).
Proof.
  intros H. apply update_review_Ok in H
    as [[-> ->] | (pre & old & post & assigned
                   & Hl & Hid & Hpol & _ & Hc & H & ->)]; [now left|].
  right. split; [reflexivity|].
  apply update_movie_rating_tables in H as (_ & Hrs & _). simpl in Hrs.
  pose proof (update_checks_Ok _ _ _ _ _ Hc) as (Hrat & _).
  assert (Hnew : Policy.reviews_update ses
                   (update_reviews_updated_at ses assigned) = true).
  { unfold update_checks in Hc. now apply check_Ok in Hc as [Hnew _]. }
  exists old, (update_reviews_updated_at ses assigned), (pre ++ post).
  split; [rewrite Hl; symmetry; apply Permutation_middle|].
  split.
  { rewrite Hrs, app_assoc. symmetry. apply Permutation_cons_append. }
  split; [assumption|]. split; [assumption|]. split; [assumption|].
  split; [assumption|]. split; [reflexivity|].
  intros Hb. unfold Policy.reviews_update, auth_uid_is in Hpol, Hnew.
  rewrite Hb in Hpol, Hnew. simpl in Hpol, Hnew.
  destruct (auth_uid ses) as [a|]; [|discriminate].
  apply Z.eqb_eq in Hpol. apply Z.eqb_eq in Hnew.
  unfold update_reviews_updated_at in *. simpl in *. split; congruence.
Qed.

Lemma update_reaches_one_row_witness :
  exists d',
    update_review (Scenario.client Scenario.U1 9)
      (mkset (Some 77) None None (Some (integer_literal 2)) None
             (Some 5) (Some 99))
      Scenario.R1 Scenario.watching = Ok (d', 1%nat) /\
    reviews d' = [Review.mk 77 Scenario.U1 Scenario.X 2 None 5 9] /\
    ((1%nat = 0%nat /\ d' = Scenario.watching) \/
     (1%nat = 1%nat /\
      exists old new rest,
        Permutation (reviews Scenario.watching) (old :: rest) /\
        Permutation (reviews d') (new :: rest) /\
        Review.id old = Scenario.R1 /\
        Policy.reviews_update (Scenario.client Scenario.U1 9) old = true /\
        Policy.reviews_update (Scenario.client Scenario.U1 9) new = true /\
        rating_check new = true /\
        Review.updated_at new = 9 /\
        (false = false ->
         Some Scenario.U1 = Some (Review.user_id old) /\
         Review.user_id new = Review.user_id old))).
Proof.
  eexists. split; [vm_compute; reflexivity|].
  split; [vm_compute; reflexivity|].
  exact (update_reaches_one_row (Scenario.client Scenario.U1 9)
           (mkset (Some 77) None None (Some (integer_literal 2)) None
                  (Some 5) (Some 99))
           Scenario.R1 Scenario.watching _ 1%nat eq_refl).
Defined.

Lemma filter_fresh_id rid u rs :
  ~ In rid (map Review.id rs) ->
  filter (fun r => negb ((Review.id r =? rid) && (Review.user_id r =? u))) rs
  = rs.
Proof.
  intros H. apply filter_all. apply Forall_forall. intros r Hr.
  destruct (Z.eqb_spec (Review.id r) rid) as [E|]; [|reflexivity].
  exfalso. apply H. rewrite <- E. now apply in_map.
Qed.

(** Submitting a review and deleting it again, as a signed-in user of the
    application on a role subject to row-level security, gives back the
    database the user started from, whether the submission was accepted or
    refused ([new_id] being an id no review has yet). *)
Theorem submit_then_delete_restores ses u movieId rating txt new_id d :
  auth_uid ses = Some u -> bypassrls ses = false ->
  ~ In new_id (map Review.id (reviews d)) ->
  handleDeleteReview ses new_id true
    (fst (handleSubmit ses movieId rating txt new_id d))
  = (d, toast_success).
Proof.
  intros Hu Hb Hfresh.
  assert (Hdel : forall d0,
             handleDeleteReview ses new_id true d0
             = (set_reviews
                  (filter (fun r => negb ((Review.id r =? new_id)
                                          && (Review.user_id r =? u)))
                          (reviews d0)) d0, toast_success)).
  { intros d0. unfold handleDeleteReview. rewrite Hu. simpl negb. cbv iota.
    erewrite transact_Ok; [reflexivity|].
    unfold delete_reviews, delete_from_reviews.
    rewrite after_delete_rows_under_rls by assumption. simpl.
    f_equal. f_equal. f_equal. apply filter_ext. intros r.
    unfold Policy.reviews_delete. rewrite Hb. simpl.
    destruct (Review.id r =? new_id); simpl; [|reflexivity].
    destruct (Z.eqb_spec (Review.user_id r) u) as [E|]; [|reflexivity].
    simpl. rewrite E. now rewrite (auth_uid_is_self _ _ Hu). }
  rewrite Hdel. f_equal.
  unfold handleSubmit. rewrite Hu.
  destruct (rating =? 0).
  { simpl. rewrite filter_fresh_id by assumption. apply set_reviews_same. }
  unfold transact, returning_unit.
  destruct (insert_review ses new_id u movieId rating txt d) as [d'|e] eqn:E;
    simpl.
  - pose proof (insert_review_Ok _ _ _ _ _ _ _ _ E) as (z & _ & _ & Ht).
    rewrite update_movie_rating_under_rls in Ht by assumption.
    injection Ht as <-. simpl. rewrite filter_app. simpl.
    rewrite !Z.eqb_refl. simpl.
    rewrite filter_fresh_id by assumption. rewrite app_nil_r.
    destruct d; reflexivity.
  - rewrite filter_fresh_id by assumption. apply set_reviews_same.
Qed.

Lemma submit_then_delete_restores_witness :
  ~ In Scenario.R2 (map Review.id (reviews Scenario.watching)) /\
  COUNT (reviews (fst (handleSubmit (Scenario.client Scenario.U2 2)
                         Scenario.X 5 None Scenario.R2 Scenario.watching)))
  = 2 /\
  handleDeleteReview (Scenario.client Scenario.U2 2) Scenario.R2 true
    (fst (handleSubmit (Scenario.client Scenario.U2 2) Scenario.X 5 None
            Scenario.R2 Scenario.watching))
  = (Scenario.watching, toast_success).
Proof.
  assert (Hf : ~ In Scenario.R2 (map Review.id (reviews Scenario.watching))).
  { simpl. intros [H|[]]. discriminate. }
  split; [exact Hf|]. split; [vm_compute; reflexivity|].
  exact (submit_then_delete_restores (Scenario.client Scenario.U2 2)
           Scenario.U2 Scenario.X 5 None Scenario.R2 Scenario.watching
           eq_refl eq_refl Hf).
Defined.

(** * Further properties of the client *)

(** ** The watchlist on the Home and Movies pages *)

Lemma own_row_passes ses u x :
  auth_uid ses = Some u -> (x =? u) = true ->
  bypassrls ses || auth_uid_is ses x = true.
Proof.
  intros Hu E. apply Z.eqb_eq in E. subst x.
  rewrite (auth_uid_is_self _ _ Hu). apply orb_true_r.
Qed.

Lemma own_filter ses u x (q : bool) :
  auth_uid ses = Some u ->
  ((x =? u) && q) && (bypassrls ses || auth_uid_is ses x) = (x =? u) && q.
Proof.
  intros Hu. destruct (x =? u) eqn:E; [|reflexivity].
  rewrite (own_row_passes _ _ _ Hu E). apply andb_true_r.
Qed.

Lemma fetchWatchlist_spec ses u local d x :
  auth_uid ses = Some u ->
  In x (Home.fetchWatchlist ses local d) <->
  exists w, In w (watchlist d) /\ Watch.user_id w = u /\ Watch.movie_id w = x.
Proof.
  intros Hu. unfold Home.fetchWatchlist, select_from_watchlist.
  rewrite Hu, in_map_iff. split.
  - intros (w & Hx & Hw). apply filter_In in Hw as [Hw Hp].
    apply andb_prop in Hp as [Hp _]. apply Z.eqb_eq in Hp. eauto.
  - intros (w & Hw & Hid & Hx). exists w. split; [assumption|].
    apply filter_In. split; [assumption|].
    unfold watchlist_select_policy.
    assert (E : (Watch.user_id w =? u) = true) by now apply Z.eqb_eq.
    now rewrite E, (own_row_passes _ _ _ Hu E).
Qed.

Lemma delete_own_entries ses u movieId d :
  auth_uid ses = Some u ->
  fst (transact (delete_from_watchlist ses
                   (fun w => (Watch.user_id w =? u)
                             && (Watch.movie_id w =? movieId))) d)
  = set_watchlist
      (filter (fun w => negb ((Watch.user_id w =? u)
                              && (Watch.movie_id w =? movieId)))
              (watchlist d)) d.
Proof.
  intros Hu. unfold transact, delete_from_watchlist. cbn [fst].
  f_equal. apply filter_ext. intros w. unfold Policy.watchlist_delete.
  now rewrite (own_filter ses u _ _ Hu).
Qed.

Lemma insert_own_entry ses u movieId new_id d :
  auth_uid ses = Some u ->
  has_user u d = true -> has_movie movieId d = true ->
  ~ In new_id (map Watch.id (watchlist d)) ->
  (forall w, In w (watchlist d) -> Watch.user_id w = u ->
             Watch.movie_id w <> movieId) ->
  insert_into_watchlist ses new_id u movieId d
  = Ok (set_watchlist
          (watchlist d ++ [Watch.mk new_id u movieId (now ses)]) d).
Proof.
  intros Hu Huser Hmovie Hfresh Hnone. unfold insert_into_watchlist.
  unfold Policy.watchlist_insert. simpl Watch.user_id.
  rewrite (auth_uid_is_self _ _ Hu), orb_true_r. simpl.
  replace (existsb _ (watchlist d)) with false.
  2:{ symmetry. apply not_true_is_false. intros H.
      apply existsb_exists in H as (w & Hw & E). apply Z.eqb_eq in E.
      apply Hfresh. rewrite <- E. now apply in_map. }
  simpl.
  replace (existsb _ (watchlist d)) with false.
  2:{ symmetry. apply not_true_is_false. intros H.
      apply existsb_exists in H as (w & Hw & E).
      unfold same_entry in E. simpl in E. apply andb_prop in E as [E1 E2].
      apply Z.eqb_eq in E1. apply Z.eqb_eq in E2.
      apply (Hnone w Hw); congruence. }
  simpl. rewrite Huser, Hmovie. reflexivity.
Qed.

(** The page stays in step with the table.  If the local list holds just
    the movies of the user's watchlist entries, then after a toggle of a
    movie of the catalogue (by the signed-in user, [new_id] being an
    unused id) it again holds just the movies a fresh [fetchWatchlist]
    returns. *)
Theorem toggle_keeps_page_in_step ses u movieId local new_id d :
  auth_uid ses = Some u ->
  has_user u d = true -> has_movie movieId d = true ->
  ~ In new_id (map Watch.id (watchlist d)) ->
  (forall x, In x local <-> In x (Home.fetchWatchlist ses [] d)) ->
  forall x,
    In x (snd (fst (Home.handleWatchlistToggle ses movieId local new_id d)))
    <->
    In x (Home.fetchWatchlist ses []
            (fst (fst (Home.handleWatchlistToggle ses movieId local new_id d)))).
Proof.
  intros Hu Huser Hmovie Hfresh Hstep x.
  unfold Home.handleWatchlistToggle. rewrite Hu.
  destruct (existsb (fun id => id =? movieId) local) eqn:Ein; cbn [fst snd].
  - rewrite (delete_own_entries ses u movieId d Hu).
    rewrite (fetchWatchlist_spec ses u [] _ x Hu). simpl watchlist.
    rewrite filter_In, Hstep, (fetchWatchlist_spec ses u [] d x Hu).
    split.
    + intros [(w & Hw & Hid & Hx) Hne]. exists w. split; [|auto].
      apply filter_In. split; [assumption|].
      rewrite Hx. destruct (x =? movieId); [discriminate|].
      now rewrite andb_false_r.
    + intros (w & Hw & Hid & Hx). apply filter_In in Hw as [Hw Hne].
      split; [eauto|].
      rewrite <- Hx. rewrite Hid, Z.eqb_refl in Hne. exact Hne.
  - assert (Hnone : forall w, In w (watchlist d) -> Watch.user_id w = u ->
                              Watch.movie_id w <> movieId).
    { intros w Hw Hid Hm.
      assert (Hin : In movieId local).
      { apply Hstep. apply (fetchWatchlist_spec ses u [] d _ Hu). eauto. }
      apply not_true_iff_false in Ein. apply Ein.
      apply existsb_exists. exists movieId. split; [assumption|].
      apply Z.eqb_refl. }
    unfold transact, returning_unit.
    rewrite (insert_own_entry ses u movieId new_id d Hu Huser Hmovie Hfresh
               Hnone).
    cbn [bind fst]. rewrite (fetchWatchlist_spec ses u [] _ x Hu).
    simpl watchlist. rewrite in_app_iff, Hstep,
      (fetchWatchlist_spec ses u [] d x Hu).
    split.
    + intros [(w & Hw & Hid & Hx) | [<-|[]]].
      * exists w. rewrite in_app_iff. auto.
      * eexists. rewrite in_app_iff. split; [right; now left|]. auto.
    + intros (w & Hw & Hid & Hx). apply in_app_iff in Hw as [Hw|[<-|[]]].
      * left. eauto.
      * right. now left.
Qed.

Lemma toggle_keeps_page_in_step_witness :
  has_user Scenario.U1 Scenario.watching = true /\
  has_movie Scenario.Y Scenario.watching = true /\
  ~ In 22 (map Watch.id (watchlist Scenario.watching)) /\
  Home.fetchWatchlist (Scenario.client Scenario.U1 2) [] Scenario.watching
  = [Scenario.X] /\
  snd (fst (Home.handleWatchlistToggle (Scenario.client Scenario.U1 2)
              Scenario.Y [Scenario.X] 22 Scenario.watching))
  = [Scenario.X; Scenario.Y] /\
  (In Scenario.Y
      (snd (fst (Home.handleWatchlistToggle (Scenario.client Scenario.U1 2)
                   Scenario.Y [Scenario.X] 22 Scenario.watching)))
   <->
   In Scenario.Y
      (Home.fetchWatchlist (Scenario.client Scenario.U1 2) []
         (fst (fst (Home.handleWatchlistToggle (Scenario.client Scenario.U1 2)
                      Scenario.Y [Scenario.X] 22 Scenario.watching))))).
Proof.
  assert (Hf : ~ In 22 (map Watch.id (watchlist Scenario.watching))).
  { simpl. intros [H|[]]. discriminate. }
  split; [reflexivity|]. split; [reflexivity|]. split; [exact Hf|].
  split; [reflexivity|]. split; [reflexivity|].
  exact (toggle_keeps_page_in_step (Scenario.client Scenario.U1 2) Scenario.U1
           Scenario.Y [Scenario.X] 22 Scenario.watching
           eq_refl eq_refl eq_refl Hf (fun x => iff_refl _) Scenario.Y).
Defined.

(** A toggle that the table refuses still shows on the page.  For a movie
    that is not in [movies] (the ids of the Search page's results are not)
    and not on the local list, the insert raises, the response is dropped,
    and the handler reports "Added to watchlist" and lists the movie, while
    the database is unchanged. *)
Theorem refused_toggle_still_shows ses u movieId local new_id d :
  auth_uid ses = Some u ->
  has_movie movieId d = false ->
  ~ In movieId local ->
  Home.handleWatchlistToggle ses movieId local new_id d
  = (d, local ++ [movieId], toast_success) /\
  (exists e, insert_into_watchlist ses new_id u movieId d = Err e).
Proof.
  intros Hu Hm Hl.
  assert (He : exists e, insert_into_watchlist ses new_id u movieId d = Err e).
  { unfold insert_into_watchlist.
    destruct (Policy.watchlist_insert ses _); simpl; [|eauto].
    destruct (existsb _ (watchlist d)); simpl; [eauto|].
    destruct (existsb _ (watchlist d)); simpl; [eauto|].
    destruct (has_user u d); simpl; [|eauto].
    rewrite Hm. simpl. eauto. }
  split; [|exact He]. destruct He as [e He].
  unfold Home.handleWatchlistToggle. rewrite Hu.
  replace (existsb (fun id => id =? movieId) local) with false.
  2:{ symmetry. apply not_true_is_false. intros H.
      apply existsb_exists in H as (x & Hx & E). apply Z.eqb_eq in E.
      now subst x. }
  unfold transact, returning_unit. now rewrite He.
Qed.

Lemma refused_toggle_still_shows_witness :
  has_movie 550 Scenario.watching = false /\
  ~ In 550 [Scenario.X] /\
  Home.handleWatchlistToggle (Scenario.client Scenario.U1 2) 550 [Scenario.X]
    22 Scenario.watching
  = (Scenario.watching, [Scenario.X; 550], toast_success) /\
  Home.fetchWatchlist (Scenario.client Scenario.U1 2) [] Scenario.watching
  = [Scenario.X].
Proof.
  assert (Hl : ~ In 550 [Scenario.X]).
  { intros [H|[]]. discriminate. }
  split; [reflexivity|]. split; [exact Hl|]. split; [|reflexivity].
  exact (proj1 (refused_toggle_still_shows (Scenario.client Scenario.U1 2)
                  Scenario.U1 550 [Scenario.X] 22 Scenario.watching
                  eq_refl eq_refl Hl)).
Defined.

(** ** The watchlist on the movie page *)

Lemma status_is_membership ses u m flag d :
  auth_uid ses = Some u -> unique_entries (watchlist d) ->
  MovieDetail.checkWatchlistStatus ses (Some m) flag d = true <->
  exists w, In w (watchlist d) /\ Watch.user_id w = u /\ Watch.movie_id w = m.
Proof.
  intros Hu Huniq. unfold MovieDetail.checkWatchlistStatus. rewrite Hu.
  unfold select_from_watchlist, watchlist_select_policy.
  rewrite (filter_ext _ (fun w => (Watch.user_id w =? u)
                                  && (Watch.movie_id w =? m)))
    by (intros w; apply (own_filter ses u _ _ Hu)).
  pose proof (NoDup_key_at_most_one watch_pair
                (fun w => (Watch.user_id w =? u) && (Watch.movie_id w =? m))
                (u, m) (watchlist d)) as Hone.
  assert (Hlen : (length (entries_by u m (watchlist d)) <= 1)%nat).
  { apply Hone; [|exact Huniq]. intros w Hw. apply andb_prop in Hw as [H1 H2].
    apply Z.eqb_eq in H1. apply Z.eqb_eq in H2. unfold watch_pair. congruence. }
  unfold entries_by in Hlen.
  destruct (filter _ (watchlist d)) as [|w [|w' l]] eqn:E.
  - split; [discriminate|]. intros (w & Hw & H1 & H2).
    assert (Hin : In w (filter (fun w => (Watch.user_id w =? u)
                                         && (Watch.movie_id w =? m))
                          (watchlist d))).
    { apply filter_In. split; [assumption|].
      now rewrite H1, H2, !Z.eqb_refl. }
    rewrite E in Hin. contradiction.
  - split; [|reflexivity]. intros _.
    assert (Hin : In w (filter (fun w => (Watch.user_id w =? u)
                                         && (Watch.movie_id w =? m))
                          (watchlist d))) by (rewrite E; now left).
    apply filter_In in Hin as [Hin Hp]. apply andb_prop in Hp as [H1 H2].
    apply Z.eqb_eq in H1. apply Z.eqb_eq in H2. eauto.
  - simpl in Hlen. lia.
Qed.

(** The flag the movie page sets is the flag a status check would find.
    For the signed-in user and a movie of the catalogue, starting from a
    flag that [checkWatchlistStatus] has set, the [isInWatchlist] that
    [handleWatchlistToggle] leaves is what [checkWatchlistStatus] returns
    on the database it leaves. *)
Theorem toggle_flag_matches_status ses u m flag0 new_id d :
  auth_uid ses = Some u ->
  unique_entries (watchlist d) ->
  has_user u d = true -> has_movie m d = true ->
  ~ In new_id (map Watch.id (watchlist d)) ->
  let flag := MovieDetail.checkWatchlistStatus ses (Some m) flag0 d in
  let after := handleWatchlistToggle ses (Some m) flag new_id d in
  MovieDetail.checkWatchlistStatus ses (Some m) flag0 (fst (fst after))
  = snd (fst after) /\
  snd (fst after) = negb flag.
Proof.
  intros Hu Huniq Huser Hmovie Hfresh flag after.
  pose proof (status_is_membership ses u m flag0 d Hu Huniq) as Hst.
  fold flag in Hst. unfold after, handleWatchlistToggle. rewrite Hu.
  destruct flag eqn:Ef; cbn [fst snd negb]; split; try reflexivity.
  - rewrite (delete_own_entries ses u m d Hu).
    apply not_true_is_false. intros H.
    apply status_is_membership with (u := u) in H;
      [|assumption | now apply NoDup_key_filter].
    destruct H as (w & Hw & H1 & H2). simpl in Hw.
    apply filter_In in Hw as [_ Hw].
    now rewrite H1, H2, !Z.eqb_refl in Hw.
  - assert (Hnone : forall w, In w (watchlist d) -> Watch.user_id w = u ->
                              Watch.movie_id w <> m).
    { intros w Hw H1 H2.
      assert (false = true); [|discriminate]. apply Hst. eauto. }
    unfold transact, returning_unit.
    rewrite (insert_own_entry ses u m new_id d Hu Huser Hmovie Hfresh Hnone).
    cbn [bind fst].
    apply status_is_membership with (u := u); [assumption| |].
    + simpl. apply NoDup_key_snoc; [assumption|].
      intros Hin. apply in_map_iff in Hin as (w & E & Hw).
      unfold watch_pair in E. simpl in E. injection E as E1 E2.
      now apply (Hnone w Hw).
    + eexists. simpl. rewrite in_app_iff. split; [right; now left|]. auto.
Qed.

Lemma toggle_flag_matches_status_witness :
  unique_entries (watchlist Scenario.watching) /\
  ~ In 22 (map Watch.id (watchlist Scenario.watching)) /\
  MovieDetail.checkWatchlistStatus (Scenario.client Scenario.U1 2)
    (Some Scenario.X) false Scenario.watching = true /\
  MovieDetail.checkWatchlistStatus (Scenario.client Scenario.U1 2)
    (Some Scenario.X) false
    (fst (fst (handleWatchlistToggle (Scenario.client Scenario.U1 2)
                 (Some Scenario.X) true 22 Scenario.watching)))
  = false.
Proof.
  assert (Hw : unique_entries (watchlist Scenario.watching)).
  { unfold unique_entries. simpl. constructor; [intros []|constructor]. }
  assert (Hf : ~ In 22 (map Watch.id (watchlist Scenario.watching))).
  { simpl. intros [H|[]]. discriminate. }
  split; [exact Hw|]. split; [exact Hf|]. split; [reflexivity|].
  exact (proj1 (toggle_flag_matches_status (Scenario.client Scenario.U1 2)
                  Scenario.U1 Scenario.X false 22 Scenario.watching
                  eq_refl Hw eq_refl eq_refl Hf)).
Defined.

(** ** The watchlist page *)

Lemma filter_twice {A} (p : A -> bool) l : filter p (filter p l) = filter p l.
Proof.
  apply filter_all. apply Forall_forall. intros x Hx.
  now apply filter_In in Hx as [_ Hx].
Qed.

(** Removing a movie on the watchlist page takes every entry of the
    signed-in user for that movie out of the table and touches no other
    entry, no review and no movie; removing it once more changes nothing
    further. *)
Theorem remove_takes_the_pair_off ses u movieId items d :
  auth_uid ses = Some u ->
  let after := WatchlistPage.handleRemoveFromWatchlist ses movieId items d in
  entries_by u movieId (watchlist (fst (fst after))) = [] /\
  (forall w, Watch.user_id w <> u \/ Watch.movie_id w <> movieId ->
             (In w (watchlist (fst (fst after))) <-> In w (watchlist d))) /\
  reviews (fst (fst after)) = reviews d /\
  movies (fst (fst after)) = movies d /\
  WatchlistPage.handleRemoveFromWatchlist ses movieId (snd (fst after))
    (fst (fst after)) = after.
Proof.
  intros Hu after. unfold after, WatchlistPage.handleRemoveFromWatchlist.
  rewrite Hu. cbn [fst snd].
  rewrite !(delete_own_entries ses u movieId _ Hu). cbn [watchlist set_watchlist].
  split; [|split; [|split; [|split]]]; try reflexivity.
  - unfold entries_by.
    destruct (filter _ (filter _ (watchlist d))) as [|w l] eqn:E;
      [reflexivity|]. exfalso.
    assert (Hin : In w (filter (fun w => (Watch.user_id w =? u)
                                         && (Watch.movie_id w =? movieId))
                          (filter (fun w => negb ((Watch.user_id w =? u)
                                         && (Watch.movie_id w =? movieId)))
                                  (watchlist d))))
      by (rewrite E; now left).
    apply filter_In in Hin as [Hin Hp]. apply filter_In in Hin as [_ Hn].
    now rewrite Hp in Hn.
  - intros w Hw. rewrite filter_In. split; [now intros [? _]|].
    intros Hin. split; [assumption|].
    destruct (Z.eqb_spec (Watch.user_id w) u) as [E1|]; [|reflexivity].
    destruct (Z.eqb_spec (Watch.movie_id w) movieId) as [E2|]; [|reflexivity].
    destruct Hw; contradiction.
  - unfold set_watchlist. simpl. now rewrite !filter_twice.
Qed.

Lemma remove_takes_the_pair_off_witness :
  let after :=
    WatchlistPage.handleRemoveFromWatchlist (Scenario.client Scenario.U1 2)
      Scenario.X (watchlist Scenario.watching) Scenario.watching in
  watchlist (fst (fst after)) = [] /\
  entries_by Scenario.U1 Scenario.X (watchlist (fst (fst after))) = [] /\
  reviews (fst (fst after)) = reviews Scenario.watching.
Proof.
  intros after. split; [reflexivity|].
  pose proof (remove_takes_the_pair_off (Scenario.client Scenario.U1 2)
                Scenario.U1 Scenario.X (watchlist Scenario.watching)
                Scenario.watching eq_refl) as (H1 & _ & H3 & _).
  split; [exact H1 | exact H3].
Defined.

(** Clearing the watchlist removes the entries of the signed-in user and
    leaves exactly the entries of the other users; nothing is sent at all
    when the page shows no item, whatever the table holds. *)
Theorem clear_removes_own_entries_only ses u items d :
  auth_uid ses = Some u ->
  (items <> [] ->
   WatchlistPage.clearAllWatchlist ses items d
   = (set_watchlist (entries_of_others u d) d, [], toast_success)) /\
  WatchlistPage.clearAllWatchlist ses [] d = (d, [], nothing).
Proof.
  intros Hu. unfold WatchlistPage.clearAllWatchlist. rewrite Hu.
  split; [|reflexivity]. intros Hne.
  destruct items as [|i items]; [contradiction|].
  unfold transact, delete_from_watchlist, entries_of_others. cbn [fst].
  do 3 f_equal. apply filter_ext. intros w.
  unfold Policy.watchlist_delete.
  destruct (Watch.user_id w =? u) eqn:E; [|reflexivity].
  now rewrite (own_row_passes _ _ _ Hu E).
Qed.

Lemma clear_removes_own_entries_only_witness :
  watchlist Scenario.two_watchers <> [] /\
  watchlist
    (fst (fst (WatchlistPage.clearAllWatchlist (Scenario.client Scenario.U1 9)
                 (watchlist Scenario.two_watchers) Scenario.two_watchers)))
  = [Watch.mk 22 Scenario.U2 Scenario.X 2].
Proof.
  assert (Hne : watchlist Scenario.two_watchers <> []) by discriminate.
  split; [exact Hne|].
  rewrite (proj1 (clear_removes_own_entries_only
                    (Scenario.client Scenario.U1 9) Scenario.U1
                    (watchlist Scenario.two_watchers) Scenario.two_watchers
                    eq_refl) Hne).
  reflexivity.
Defined.

(** ** The reviews page *)

(** The five counts of the rating distribution add up to the number of
    reviews shown, as long as every rating is one of 1..5; a rating
    outside would be counted in no row of the distribution. *)
Theorem rating_distribution_adds_up local :
  ratings_checked local ->
  fold_right (fun row acc => (snd row + acc)%nat) 0%nat
             (MyReviews.ratingDistribution local)
  = MyReviews.totalReviews local.
Proof.
  unfold MyReviews.ratingDistribution, MyReviews.totalReviews.
  cbn [map fold_right snd].
  induction 1 as [|r l Hr _ IH]; [reflexivity|].
  unfold rating_check in Hr. apply andb_prop in Hr as [H1 H5].
  apply Z.leb_le in H1. apply Z.leb_le in H5.
  cbn [filter length].
  destruct (Z.eqb_spec (Review.rating r) 1), (Z.eqb_spec (Review.rating r) 2),
    (Z.eqb_spec (Review.rating r) 3), (Z.eqb_spec (Review.rating r) 4),
    (Z.eqb_spec (Review.rating r) 5); cbn [length]; lia.
Qed.

Lemma rating_distribution_adds_up_witness :
  ratings_checked
    (reviews (requests Scenario.three_reviewers Scenario.three_users)) /\
  MyReviews.ratingDistribution
    (reviews (requests Scenario.three_reviewers Scenario.three_users))
  = [(1, 0%nat); (2, 1%nat); (3, 0%nat); (4, 1%nat); (5, 1%nat)] /\
  fold_right (fun row acc => (snd row + acc)%nat) 0%nat
    (MyReviews.ratingDistribution
       (reviews (requests Scenario.three_reviewers Scenario.three_users)))
  = 3%nat.
Proof.
  assert (Hr : ratings_checked
                 (reviews (requests Scenario.three_reviewers
                             Scenario.three_users)))
    by (vm_compute; repeat constructor).
  split; [exact Hr|]. split; [vm_compute; reflexivity|].
  exact (rating_distribution_adds_up _ Hr).
Defined.

(** * Further properties: profiles *)

Lemma username_of_success NEW new_id t ps ps' :
  handle_new_user NEW new_id t ps = inr ps' ->
  exists username,
    coalesce (AuthUser.meta_username NEW)
      (option_map (fun e => split_part e at_sign) (AuthUser.email NEW))
    = Some username /\
    ((existsb (fun p => Profile.user_id p =? AuthUser.id NEW) ps = true /\
      ps' = ps) \/
     (existsb (fun p => Profile.user_id p =? AuthUser.id NEW) ps = false /\
      existsb (fun p => Profile.id p =? new_id) ps = false /\
      existsb (fun p => String.eqb (Profile.username p) username) ps = false /\
      ps' = ps ++
            [Profile.mk new_id (AuthUser.id NEW) username
               (coalesce (AuthUser.meta_display_name NEW)
                  (option_map (fun e => split_part e at_sign)
                     (AuthUser.email NEW)))
               None None [] t t])).
Proof.
  unfold handle_new_user.
  destruct (coalesce _ _) as [username|]; [|discriminate].
  intros H. exists username. split; [reflexivity|].
  destruct (existsb (fun p => Profile.user_id p =? AuthUser.id NEW) ps) eqn:E1.
  { left. injection H as <-. auto. }
  destruct (existsb (fun p => Profile.id p =? new_id) ps) eqn:E2;
    [discriminate|].
  destruct (existsb (fun p => String.eqb (Profile.username p) username) ps)
    eqn:E3; [discriminate|].
  right. injection H as <-. auto.
Qed.

(** The trigger may run again for the same user: once it has gone
    through, a second run (whatever id and time it draws) raises nothing
    and leaves [profiles] as it is. *)
Theorem handle_new_user_runs_once NEW id1 t1 id2 t2 ps ps' :
  handle_new_user NEW id1 t1 ps = inr ps' ->
  handle_new_user NEW id2 t2 ps' = inr ps'.
Proof.
  intros H. apply username_of_success in H
    as (username & Hname & [[Hex ->] | (_ & _ & _ & ->)]);
    unfold handle_new_user; rewrite Hname.
  - now rewrite Hex.
  - rewrite existsb_app. simpl. now rewrite Z.eqb_refl, orb_true_r.
Qed.



(** Sign-up fails on a username that is taken: for a user without a
    profile whose username (from the metadata, else the part of the email
    before the first '@') is that of an existing profile, the trigger raises
    [unique_violation]; and it raises [not_null_violation] when neither
    metadata nor email gives a username. *)
Theorem handle_new_user_rejects_taken_username NEW new_id t ps :
  (forall username p,
      coalesce (AuthUser.meta_username NEW)
        (option_map (fun e => split_part e at_sign) (AuthUser.email NEW))
      = Some username ->
      (forall q, In q ps -> Profile.user_id q <> AuthUser.id NEW) ->
      In p ps -> Profile.username p = username ->
      handle_new_user NEW new_id t ps = inl profiles_unique_violation) /\
  (AuthUser.meta_username NEW = None -> AuthUser.email NEW = None ->
   handle_new_user NEW new_id t ps = inl profiles_not_null_violation).
Proof.
  split.
  - intros username p Hname Hnew Hp Hsame. unfold handle_new_user.
    rewrite Hname.
    replace (existsb _ ps) with false.
    2:{ symmetry. apply not_true_is_false. intros H.
        apply existsb_exists in H as (q & Hq & E). apply Z.eqb_eq in E.
        now apply (Hnew q Hq). }
    destruct (existsb _ ps); [reflexivity|].
    replace (existsb _ ps) with true; [reflexivity|].
    symmetry. apply existsb_exists. exists p. split; [assumption|].
    now apply String.eqb_eq.
  - intros Hm He. unfold handle_new_user. now rewrite Hm, He.
Qed.

Lemma handle_new_user_runs_once_witness :
  handle_new_user SignUp.alice_a 31 5 [] = inr SignUp.after_alice_a /\
  handle_new_user SignUp.alice_a 32 6 SignUp.after_alice_a
  = inr SignUp.after_alice_a.
Proof.
  assert (H : handle_new_user SignUp.alice_a 31 5 [] = inr SignUp.after_alice_a)
    by reflexivity.
  split; [exact H|].
  exact (handle_new_user_runs_once SignUp.alice_a 31 5 32 6 [] _ H).
Defined.


Lemma handle_new_user_rejects_taken_username_witness :
  (forall q, In q SignUp.after_alice_a ->
             Profile.user_id q <> AuthUser.id SignUp.alice_b) /\
  handle_new_user SignUp.alice_b 32 6 SignUp.after_alice_a
  = inl profiles_unique_violation.
Proof.
  assert (Hnew : forall q, In q SignUp.after_alice_a ->
                           Profile.user_id q <> AuthUser.id SignUp.alice_b).
  { intros q [<-|[]]. discriminate. }
  split; [exact Hnew|].
  exact (proj1 (handle_new_user_rejects_taken_username SignUp.alice_b 32 6
                  SignUp.after_alice_a)
           "alice"%string
           (Profile.mk 31 1 "alice" (Some "alice"%string) None None [] 5 5)
           eq_refl Hnew (or_introl eq_refl) eq_refl).
Defined.

(** * Further properties: helpers of the pages *)

Lemma existsb_eqb_In g l : existsb (String.eqb g) l = true <-> In g l.
Proof.
  rewrite existsb_exists. split.
  - intros (x & Hx & E). apply String.eqb_eq in E. now subst x.
  - intros H. exists g. split; [assumption | apply String.eqb_refl].
Qed.

Lemma toggleGenre_In genre l h :
  In h (toggleGenre genre l) <->
  (h = genre /\ ~ In genre l) \/ (h <> genre /\ In h l).
Proof.
  unfold toggleGenre. destruct (existsb (String.eqb genre) l) eqn:E.
  - apply existsb_eqb_In in E. rewrite filter_In. split.
    + intros [Hh Hne]. right. split; [|assumption].
      intros ->. now rewrite String.eqb_refl in Hne.
    + intros [[-> Hn] | [Hne Hh]]; [contradiction|].
      split; [assumption|]. apply negb_true_iff. now apply String.eqb_neq.
  - assert (Hn : ~ In genre l).
    { intros H. apply existsb_eqb_In in H. congruence. }
    rewrite in_app_iff. split.
    + intros [Hh | [<-|[]]]; [|now left].
      right. split; [|assumption]. intros ->. contradiction.
    + intros [[-> _] | [_ Hh]]; [right; now left | now left].
Qed.

(** Toggling a genre flips that genre and no other: afterwards it is a
    favourite exactly if it was not, every other genre is a favourite
    exactly if it was, a list without repeats stays without repeats, and
    toggling twice gives back the same set of favourites. *)
Theorem toggleGenre_flips_one_genre genre favorite_genres :
  (In genre (toggleGenre genre favorite_genres) <->
   ~ In genre favorite_genres) /\
  (forall h, h <> genre ->
             (In h (toggleGenre genre favorite_genres) <->
              In h favorite_genres)) /\
  (NoDup favorite_genres -> NoDup (toggleGenre genre favorite_genres)) /\
  (forall h, In h (toggleGenre genre (toggleGenre genre favorite_genres)) <->
             In h favorite_genres).
Proof.
  assert (Hdec : forall h, In h favorite_genres \/ ~ In h favorite_genres).
  { intros h. destruct (existsb (String.eqb h) favorite_genres) eqn:E.
    - left. now apply existsb_eqb_In.
    - right. intros H. apply existsb_eqb_In in H. congruence. }
  split; [|split; [|split]].
  - rewrite toggleGenre_In. split.
    + intros [[_ H] | [H _]]; [assumption | contradiction].
    + intros H. now left.
  - intros h Hne. rewrite toggleGenre_In. split.
    + intros [[H _] | [_ H]]; [contradiction | assumption].
    + intros H. now right.
  - intros Hnd. unfold toggleGenre.
    destruct (existsb (String.eqb genre) favorite_genres) eqn:E.
    + now apply NoDup_filter.
    + apply NoDup_app; [assumption | repeat constructor; intros [] |].
      intros a Ha [<-|[]]. apply existsb_eqb_In in Ha. congruence.
  - intros h. rewrite !toggleGenre_In.
    destruct (String.eqb_spec h genre) as [->|Hne].
    + split.
      * intros [[_ H] | [H _]]; [|contradiction].
        destruct (Hdec genre) as [Hin|Hn]; [assumption|].
        exfalso. apply H. now left.
      * intros Hin. left. split; [reflexivity|].
        intros [[_ H] | [H _]]; contradiction.
    + split.
      * intros [[H _] | [_ [[H _] | [_ H]]]]; try contradiction. assumption.
      * intros Hin. right. split; [assumption|]. now right.
Qed.

(** ** The row of stars *)

Lemma Qle_bool_floor k q : Qle_bool (inject_Z k) q = (k <=? Qfloor q).
Proof.
  pose proof (Qfloor_le q) as Hlo. pose proof (Qlt_floor q) as Hhi.
  destruct (Z.leb_spec k (Qfloor q)) as [H|H].
  - apply Qle_bool_iff. rewrite Zle_Qle in H. lra.
  - apply not_true_is_false. intros E. apply Qle_bool_iff in E.
    assert (H' : (Qfloor q + 1 <= k)%Z) by lia.
    rewrite Zle_Qle in H'. lra.
Qed.

Lemma StarRating_star_floor hoveredRating rating n :
  StarRating_star false hoveredRating rating n
  = if Z.of_nat n + 1 <=? Qfloor rating then star_full
    else if (Z.of_nat n =? Qfloor rating)
            && Qle_bool (inject_Z (Qfloor rating) + (1 # 2)) rating
         then star_half else star_empty.
Proof.
  unfold StarRating_star. cbv zeta. cbn [negb andb].
  rewrite !Qle_bool_floor.
  destruct (Z.leb_spec (Z.of_nat n + 1) (Qfloor rating)) as [H|H];
    [reflexivity|]. cbn [negb].
  rewrite andb_true_r.
  destruct (Z.eqb_spec (Z.of_nat n) (Qfloor rating)) as [E|E]; cbn [andb].
  - rewrite <- E.
    replace (Qle_bool (inject_Z (Z.of_nat n + 1) - (1 # 2)) rating)
      with (Qle_bool (inject_Z (Z.of_nat n) + (1 # 2)) rating); [reflexivity|].
    apply Qleb_comp; [|reflexivity]. rewrite inject_Z_plus.
    change (inject_Z 1) with 1%Q. lra.
  - replace (Qle_bool (inject_Z (Z.of_nat n + 1) - (1 # 2)) rating)
      with false; [reflexivity|].
    symmetry. apply not_true_is_false. intros F. apply Qle_bool_iff in F.
    pose proof (Qlt_floor rating) as Hhi.
    assert (H' : (Qfloor rating + 1 <= Z.of_nat n)%Z) by lia.
    rewrite Zle_Qle in H'. rewrite !inject_Z_plus in *.
    change (inject_Z 1) with 1%Q in *. lra.
Qed.

Lemma StarRating_S interactive hoveredRating rating n :
  StarRating interactive hoveredRating rating (S n)
  = StarRating interactive hoveredRating rating n
    ++ [StarRating_star interactive hoveredRating rating n].
Proof. unfold StarRating. rewrite seq_S, map_app. reflexivity. Qed.

(** A rating shown without interaction, any number from 0 on (3.67, 4.50,
    or a mean such as 11/3), fills as many stars as it has whole units (at
    most [maxRating]) and draws at most one half star: the star after the
    full ones, when the rest of the rating is a half or more. *)
Theorem StarRating_shows_the_rating hoveredRating rating maxRating :
  (0 <= rating)%Q ->
  let row := StarRating false hoveredRating rating maxRating in
  Z.of_nat (length (filter is_full row))
  = Z.min (Z.of_nat maxRating) (Qfloor rating) /\
  length (filter is_half row)
  = (if (Qfloor rating <? Z.of_nat maxRating)
        && Qle_bool (inject_Z (Qfloor rating) + (1 # 2)) rating
     then 1%nat else 0%nat).
Proof.
  intros Hr. cbv zeta.
  assert (Hq0 : 0 <= Qfloor rating).
  { change 0 with (Qfloor 0). now apply Qfloor_resp_le. }
  set (q := Qfloor rating) in *.
  set (hb := Qle_bool (inject_Z q + (1 # 2)) rating).
  induction maxRating as [|n [IHf IHh]].
  { split; [simpl; lia|]. simpl.
    destruct (Z.ltb_spec q 0); [lia | reflexivity]. }
  rewrite StarRating_S, !filter_app, !length_app.
  rewrite Nat2Z.inj_add, IHf, IHh, Nat2Z.inj_succ.
  rewrite StarRating_star_floor. fold q. fold hb.
  destruct (Z.leb_spec (Z.of_nat n + 1) q) as [Hfull|Hfull];
    cbn [filter is_full is_half length].
  - split; [lia|].
    destruct (Z.ltb_spec q (Z.of_nat n)); [lia|].
    destruct (Z.ltb_spec q (Z.succ (Z.of_nat n))); [lia|]. reflexivity.
  - destruct (Z.eqb_spec (Z.of_nat n) q) as [E|E]; cbn [andb].
    + destruct hb; cbn [filter is_full is_half length].
      * split; [lia|].
        destruct (Z.ltb_spec q (Z.of_nat n)); [lia|].
        destruct (Z.ltb_spec q (Z.succ (Z.of_nat n))); [|lia]. reflexivity.
      * split; [lia|].
        destruct (Z.ltb_spec q (Z.of_nat n)); [lia|].
        destruct (Z.ltb_spec q (Z.succ (Z.of_nat n))); [|lia]. reflexivity.
    + cbn [filter is_full is_half length]. split; [lia|].
      destruct (Z.ltb_spec q (Z.of_nat n));
        destruct (Z.ltb_spec q (Z.succ (Z.of_nat n))); try lia;
        cbn [andb]; destruct hb; reflexivity.
Qed.

Lemma StarRating_shows_the_rating_witness :
  StarRating false 0 (11 # 3) 5
  = [star_full; star_full; star_full; star_half; star_empty] /\
  StarRating false 0 (433 # 100) 5
  = [star_full; star_full; star_full; star_full; star_empty] /\
  Z.of_nat (length (filter is_full (StarRating false 0 (11 # 3) 5)))
  = Z.min 5 (Qfloor (11 # 3)) /\
  length (filter is_half (StarRating false 0 (11 # 3) 5)) = 1%nat.
Proof.
  split; [reflexivity|]. split; [reflexivity|].
  exact (StarRating_shows_the_rating 0 (11 # 3) 5 ltac:(discriminate)).
Defined.

Lemma toggleGenre_flips_one_genre_witness :
  (toggleGenre "Drama" ["Drama"; "Crime"] = ["Crime"] /\
   toggleGenre "Drama" ["Crime"] = ["Crime"; "Drama"] /\
   (In "Crime" (toggleGenre "Drama" ["Drama"; "Crime"]) <->
    In "Crime" ["Drama"; "Crime"]) /\
   NoDup (toggleGenre "Drama" ["Drama"; "Crime"]))%string.
Proof.
  split; [reflexivity|]. split; [reflexivity|].
  destruct (toggleGenre_flips_one_genre "Drama" ["Drama"; "Crime"]%string)
    as (_ & Hother & Hnodup & _).
  split.
  - apply Hother. discriminate.
  - apply Hnodup. repeat constructor; simpl; intuition discriminate.
Defined.

(** ** Further properties: reading reviews on the movie page *)

Lemma insert_desc_perm {A} (key : A -> Z) x l :
  Permutation (insert_desc key x l) (x :: l).
Proof.
  induction l as [|y l IH]; simpl; [reflexivity|].
  destruct (key y <=? key x); [reflexivity|].
  rewrite IH. apply perm_swap.
Qed.

Lemma order_by_desc_perm {A} (key : A -> Z) l :
  Permutation (order_by_desc key l) l.
Proof.
  induction l as [|x l IH]; simpl; [reflexivity|].
  rewrite insert_desc_perm. now constructor.
Qed.

Lemma insert_desc_sorted {A} (key : A -> Z) x l :
  StronglySorted (fun a b => key b <= key a) l ->
  StronglySorted (fun a b => key b <= key a) (insert_desc key x l).
Proof.
  induction 1 as [|y l Hs IH Hy]; simpl.
  - constructor; constructor.
  - destruct (Z.leb_spec (key y) (key x)) as [Hle|Hlt].
    + constructor; [constructor; assumption|].
      constructor; [assumption|].
      eapply Forall_impl; [|exact Hy]. simpl. intros; lia.
    + constructor; [assumption|].
      eapply Permutation_Forall; [symmetry; apply insert_desc_perm|].
      constructor; [lia | assumption].
Qed.

Lemma order_by_desc_sorted {A} (key : A -> Z) l :
  StronglySorted (fun a b => key b <= key a) (order_by_desc key l).
Proof.
  induction l as [|x l IH]; simpl; [constructor|].
  now apply insert_desc_sorted.
Qed.

Lemma StronglySorted_map {A B} (f : A -> B) (R : B -> B -> Prop) l :
  StronglySorted (fun a b => R (f a) (f b)) l ->
  StronglySorted R (map f l).
Proof.
  induction 1 as [|x l Hs IH Hx]; simpl; constructor; [assumption|].
  apply Forall_map. exact Hx.
Qed.

Lemma find_filter {A} (f g : A -> bool) l :
  (forall x, In x l -> f x = true -> g x = true) ->
  find f (filter g l) = find f l.
Proof.
  induction l as [|x l IH]; intros H; simpl; [reflexivity|].
  destruct (g x) eqn:Eg; simpl.
  - destruct (f x); [reflexivity|]. apply IH. intros; apply H; simpl; auto.
  - destruct (f x) eqn:Ef.
    + rewrite H in Eg; simpl; auto. discriminate.
    + apply IH. intros; apply H; simpl; auto.
Qed.

(** The movie page lists the reviews of its movie and no others, each one
    once, newest first; every review carries the names of the first profile
    of its author among all profiles (asking only for the profiles of the
    listed authors changes nothing), and the 'Unknown User' names exactly
    when its author has no profile. *)
Theorem fetchReviews_lists_the_reviews id shown profiles d :
  let out := MovieReviews.fetchReviews (Some id) shown profiles d in
  Permutation (map fst out) (reviews_of id d) /\
  StronglySorted
    (fun a b => Review.created_at (fst b) <= Review.created_at (fst a)) out /\
  Forall (fun item =>
            snd item
            = match find (fun p => Profile.user_id p
                                   =? Review.user_id (fst item)) profiles with
              | Some p => names_of p
              | None => unknown_user
              end) out.
Proof.
  cbv zeta. unfold MovieReviews.fetchReviews. fold (reviews_of id d).
  pose proof (order_by_desc_perm Review.created_at (reviews_of id d)) as Hp.
  pose proof (order_by_desc_sorted Review.created_at (reviews_of id d)) as Hs.
  set (rs := order_by_desc Review.created_at (reviews_of id d)) in *.
  destruct rs as [|r0 rs'] eqn:E.
  { split; [exact Hp|]. split; constructor. }
  rewrite <- E in *. clear E r0 rs'.
  split; [|split].
  - rewrite map_map. simpl. rewrite map_id. exact Hp.
  - apply StronglySorted_map. simpl. exact Hs.
  - apply Forall_map. apply Forall_forall. intros r Hr. simpl.
    rewrite find_filter; [reflexivity|].
    intros p _ Hpr. apply Z.eqb_eq in Hpr.
    apply existsb_exists. exists (Review.user_id r). split.
    + apply nodup_In. now apply in_map.
    + now apply Z.eqb_eq.
Qed.

(** After a review was submitted with success, the movie page finds it as
    the user's review, with the rating and the text that were sent, provided
    the user has one profile.  For a user without a profile the page finds
    no review although it is stored, so the form is offered again. *)
Theorem submitted_review_is_found ses user movie rating txt new_id prev
    profiles d d' :
  auth_uid ses = Some user ->
  handleSubmit ses movie rating txt new_id d = (d', toast_success) ->
  reviews_by user movie (reviews d')
  = [Review.mk new_id user movie rating txt (now ses) (now ses)] /\
  (forall p,
     filter (fun p => Profile.user_id p =? user) profiles = [p] ->
     MovieReviews.checkUserReview ses (Some movie) prev profiles d'
     = Some (Review.mk new_id user movie rating txt (now ses) (now ses),
             names_of p)) /\
  (filter (fun p => Profile.user_id p =? user) profiles = [] ->
   MovieReviews.checkUserReview ses (Some movie) prev profiles d' = None).
Proof.
  intros Hu H. unfold handleSubmit in H. rewrite Hu in H.
  destruct (rating =? 0); [discriminate|].
  unfold transact, returning_unit, bind in H.
  destruct (insert_review ses new_id user movie rating txt d) as [d1|e] eqn:E;
    simpl in H; [|discriminate].
  injection H as <-.
  apply insert_review_rows in E as (z & [= <-] & Hc & Hrs & _).
  apply insert_checks_Ok in Hc as (_ & _ & Hp).
  assert (Hby : reviews_by user movie (reviews d1)
                = [Review.mk new_id user movie rating txt (now ses) (now ses)]).
  { rewrite Hrs. unfold reviews_by. rewrite filter_app.
    fold (reviews_by user movie (reviews d)).
    rewrite reviews_by_none by exact Hp. simpl. now rewrite !Z.eqb_refl. }
  split; [exact Hby|].
  unfold MovieReviews.checkUserReview. rewrite Hu.
  fold (reviews_by user movie (reviews d1)). rewrite Hby.
  split.
  - intros p ->. reflexivity.
  - intros ->. reflexivity.
Qed.

Lemma submitted_review_is_found_witness :
  handleSubmit (Scenario.client Scenario.U2 2) Scenario.X 5
    (Some "fine"%string) Scenario.R2 Scenario.one_review
  = (mkdb (users Scenario.one_review) (movies Scenario.one_review)
          (reviews Scenario.one_review
           ++ [Review.mk Scenario.R2 Scenario.U2 Scenario.X 5
                 (Some "fine"%string) 2 2])
          (watchlist Scenario.one_review), toast_success) /\
  MovieReviews.checkUserReview (Scenario.client Scenario.U2 2)
    (Some Scenario.X) None
    [Profile.mk 31 Scenario.U2 "bob"%string None None None [] 1 1]
    (fst (handleSubmit (Scenario.client Scenario.U2 2) Scenario.X 5
            (Some "fine"%string) Scenario.R2 Scenario.one_review))
  = Some (Review.mk Scenario.R2 Scenario.U2 Scenario.X 5
            (Some "fine"%string) 2 2, (None, "bob"%string)) /\
  MovieReviews.checkUserReview (Scenario.client Scenario.U2 2)
    (Some Scenario.X) None []
    (fst (handleSubmit (Scenario.client Scenario.U2 2) Scenario.X 5
            (Some "fine"%string) Scenario.R2 Scenario.one_review))
  = None.
Proof.
  split; [vm_compute; reflexivity|].
  destruct (submitted_review_is_found (Scenario.client Scenario.U2 2)
              Scenario.U2 Scenario.X 5 (Some "fine"%string) Scenario.R2 None
              [Profile.mk 31 Scenario.U2 "bob"%string None None None [] 1 1]
              Scenario.one_review _ eq_refl eq_refl) as (_ & Hone & _).
  split; [exact (Hone _ eq_refl)|].
  exact (proj2 (proj2 (submitted_review_is_found
                         (Scenario.client Scenario.U2 2) Scenario.U2
                         Scenario.X 5 (Some "fine"%string) Scenario.R2 None []
                         Scenario.one_review _ eq_refl eq_refl)) eq_refl).
Defined.
